(** * Bepa: a network-connection monitor (src/main.py)

    A shallow embedding of [NetworkMonitor] and of the parts of the Python
    standard library ([str.split], [str.strip], [ipaddress]) and of [psutil]
    that the monitor calls, followed by the properties of the alerting
    engine: range matching, alert de-duplication and end-of-cycle
    reconciliation.

    Conventions.  A Python [str] is a [string]; a character stands for the
    code point of the same number.  A Python [int] that is never negative
    (an address, a port, a prefix length, a pid) is an [N].  A call of
    [ipaddress] that may raise returns a [result]; a value that may be
    Python's [None], or an empty tuple, is an [option].  Time stamps are
    left out of the output. *)

From Stdlib Require Import NArith Ascii String List Bool Lia.
From stdpp Require Import base decidable option list gmap strings pretty.

#[local] Set Warnings "-clear-no-such-hyp".

Local Open Scope string_scope.
Local Open Scope list_scope.

(** ** Exceptions *)

(** The exceptions [ipaddress] raises on a string.  [AddressValueError] and
    [NetmaskValueError] are subclasses of [ValueError], so that an
    [except ValueError] clause catches every one of them. *)
Inductive exn :=
| ValueError
| AddressValueError
| NetmaskValueError.

Inductive result (A : Type) :=
| Ok (a : A)
| Raise (e : exn).
Arguments Ok {A} a.
Arguments Raise {A} e.

Definition bind {A B} (r : result A) (k : A → result B) : result B :=
  match r with
  | Ok a => k a
  | Raise e => Raise e
  end.

Notation "'let!' x ':=' r 'in' k" := (bind r (fun x => k))
  (at level 10, x name, r at level 100, k at level 200).

(** [try: r except (classes): h] for a handler that raises [e'] instead. *)
Definition reraise {A} (catches : exn → bool) (e' : exn) (r : result A) : result A :=
  match r with
  | Ok a => Ok a
  | Raise e => if catches e then Raise e' else Raise e
  end.

(** [isinstance(e, ValueError)] *)
Definition is_ValueError (e : exn) : bool :=
  match e with
  | ValueError | AddressValueError | NetmaskValueError => true
  end.

Definition is_AddressValueError (e : exn) : bool :=
  match e with AddressValueError => true | _ => false end.

(** [isinstance(e, (AddressValueError, NetmaskValueError))] *)
Definition is_Address_or_Netmask_error (e : exn) : bool :=
  match e with AddressValueError | NetmaskValueError => true | _ => false end.

(** ** Python strings *)

Module Str.

(** [sep in s] for a one-character [sep] *)
Fixpoint contains (sep : ascii) (s : string) : bool :=
  match s with
  | EmptyString => false
  | String c r => if Ascii.eqb c sep then true else contains sep r
  end.

(** [s.split(sep)] for a one-character [sep]: never the empty list. *)
Fixpoint split (sep : ascii) (s : string) : list string :=
  match s with
  | EmptyString => [EmptyString]
  | String c r =>
      if Ascii.eqb c sep then EmptyString :: split sep r
      else match split sep r with
           | h :: t => String c h :: t
           | [] => [String c EmptyString]
           end
  end.

(** [c.isspace()] on the code points below 256: the ASCII white space
    (tab to carriage return, the four separators 28 to 31, space) and the
    two Latin-1 ones (next line, no-break space). *)
Definition isspace (c : ascii) : bool :=
  let n := N_of_ascii c in
  ((9 <=? n) && (n <=? 13) || (28 <=? n) && (n <=? 32)
   || (n =? 133) || (n =? 160))%N.

Fixpoint lstrip (s : string) : string :=
  match s with
  | EmptyString => EmptyString
  | String c r => if isspace c then lstrip r else s
  end.

Fixpoint rstrip (s : string) : string :=
  match s with
  | EmptyString => EmptyString
  | String c r =>
      match rstrip r with
      | EmptyString => if isspace c then EmptyString else String c EmptyString
      | r' => String c r'
      end
  end.

(** [s.strip()] *)
Definition strip (s : string) : string := rstrip (lstrip s).

(** [bool(s)]: a string is true when it is not empty. *)
Definition truthy (s : string) : bool :=
  match s with EmptyString => false | _ => true end.

(** [s[0] == c] (on a string that is not empty) *)
Definition first_is (c : ascii) (s : string) : bool :=
  match s with
  | EmptyString => false
  | String c0 _ => Ascii.eqb c0 c
  end.

(** [s.partition(sep)]: the text before the first [sep], whether there is
    one, and the text after it. *)
Fixpoint partition (sep : ascii) (s : string) : string * bool * string :=
  match s with
  | EmptyString => (EmptyString, false, EmptyString)
  | String c r =>
      if Ascii.eqb c sep then (EmptyString, true, r)
      else let '(a, found, b) := partition sep r in (String c a, found, b)
  end.

(** [c] is one of [0-9] *)
Definition is_ascii_digit (c : ascii) : bool :=
  let n := N_of_ascii c in ((48 <=? n) && (n <=? 57))%N.

(** [s.isascii() and s.isdigit()]: false on the empty string. *)
Fixpoint all_digits (s : string) : bool :=
  match s with
  | EmptyString => true
  | String c r => is_ascii_digit c && all_digits r
  end.
Definition isascii_isdigit (s : string) : bool := truthy s && all_digits s.

(** [int(s, 10)] on a string of ASCII digits *)
Fixpoint int10_go (acc : N) (s : string) : N :=
  match s with
  | EmptyString => acc
  | String c r => int10_go (10 * acc + (N_of_ascii c - 48))%N r
  end.
Definition int10 (s : string) : N := int10_go 0 s.

(** The value of a hexadecimal digit, [None] for any other character. *)
Definition hex_value (c : ascii) : option N :=
  let n := N_of_ascii c in
  if ((48 <=? n) && (n <=? 57))%N then Some (n - 48)%N
  else if ((97 <=? n) && (n <=? 102))%N then Some (n - 87)%N
  else if ((65 <=? n) && (n <=? 70))%N then Some (n - 55)%N
  else None.

(** [int(s, 16)] on a string of hexadecimal digits; [None] when a
    character is not one. *)
Fixpoint int16_go (acc : N) (s : string) : option N :=
  match s with
  | EmptyString => Some acc
  | String c r =>
      match hex_value c with
      | Some d => int16_go (16 * acc + d)%N r
      | None => None
      end
  end.

Definition hex_digit (d : N) : ascii :=
  ascii_of_N (if (d <? 10)%N then 48 + d else 87 + d)%N.

Fixpoint hex_go (fuel : nat) (n : N) (acc : string) : string :=
  let acc' := String (hex_digit (n mod 16)%N) acc in
  match fuel with
  | O => acc'
  | S f => if (n / 16 =? 0)%N then acc' else hex_go f (n / 16)%N acc'
  end.

(** ['%x' % n] *)
Definition hex (n : N) : string := hex_go (N.size_nat n) n EmptyString.

End Str.

(** ** The [ipaddress] module of the standard library (CPython 3.11)

    [ip_address], [ip_network], and [in] on a network are what the monitor
    calls; the rest is what they are made of.  An address is its integer value and its
    version; a network is its network address and its prefix length. *)

Inductive ip_addr :=
| IPv4Addr (ip : N)
| IPv6Addr (ip : N) (scope_id : option string).

Inductive ip_net :=
| IPv4Net (network_address prefixlen : N)
| IPv6Net (network_address prefixlen : N) (scope_id : option string).

Module ipaddress.

(** Trailing zero bits of a positive number *)
Fixpoint ctz (p : positive) : N :=
  match p with
  | xO q => N.succ (ctz q)
  | _ => 0%N
  end.

(** [_count_righthand_zero_bits(number, bits)]; the expression
    [(~number & (number - 1)).bit_length()] of the library is the number
    of trailing zero bits of [number]. *)
Definition _count_righthand_zero_bits (number bits : N) : N :=
  match number with
  | N0 => bits
  | Npos p => N.min bits (ctz p)
  end.

Section Version.
(** [_max_prefixlen]: 32 for IPv4, 128 for IPv6 *)
Variable _max_prefixlen : N.

Definition _ALL_ONES : N := (2 ^ _max_prefixlen - 1)%N.

(** [_ip_int_from_prefix]: [_ALL_ONES ^ (_ALL_ONES >> prefixlen)] *)
Definition _ip_int_from_prefix (prefixlen : N) : N :=
  N.lxor _ALL_ONES (N.shiftr _ALL_ONES prefixlen).

(** [_prefix_from_ip_int]: the prefix length of a mask of ones followed
    by zeroes, [ValueError] for any other bit pattern. *)
Definition _prefix_from_ip_int (ip_int : N) : result N :=
  let trailing_zeroes := _count_righthand_zero_bits ip_int _max_prefixlen in
  let prefixlen := (_max_prefixlen - trailing_zeroes)%N in
  let leading_ones := N.shiftr ip_int trailing_zeroes in
  let all_ones := (N.shiftl 1 prefixlen - 1)%N in
  if negb (leading_ones =? all_ones)%N then Raise ValueError
  else Ok prefixlen.

(** [_prefix_from_prefix_string] *)
Definition _prefix_from_prefix_string (prefixlen_str : string) : result N :=
  if negb (Str.isascii_isdigit prefixlen_str) then Raise NetmaskValueError
  else
    let prefixlen := Str.int10 prefixlen_str in
    if negb (prefixlen <=? _max_prefixlen)%N then Raise NetmaskValueError
    else Ok prefixlen.

(** [_split_addr_prefix] on a string: the address text and the mask
    text, [None] for the mask when there is no slash (the library then
    uses [_max_prefixlen]). *)
Definition _split_addr_prefix (address : string) : result (string * option string) :=
  let addr := Str.split "/" address in
  if (2 <? length addr)%nat then Raise AddressValueError
  else match addr with
       | [a] => Ok (a, None)
       | a :: m :: _ => Ok (a, Some m)
       | [] => Ok (EmptyString, None)
       end.
End Version.

Module IPv4.
Definition _max_prefixlen : N := 32.

Definition _parse_octet (octet_str : string) : result N :=
  if negb (Str.truthy octet_str) then Raise ValueError
  else if negb (Str.isascii_isdigit octet_str) then Raise ValueError
  else if (3 <? String.length octet_str)%nat then Raise ValueError
  else if negb (String.eqb octet_str "0") && Str.first_is "0" octet_str
       then Raise ValueError
  else
    let octet_int := Str.int10 octet_str in
    if (255 <? octet_int)%N then Raise ValueError else Ok octet_int.

(** [int.from_bytes(map(_parse_octet, octets), 'big')] *)
Fixpoint from_octets (acc : N) (octets : list string) : result N :=
  match octets with
  | [] => Ok acc
  | o :: rest =>
      let! v := _parse_octet o in
      from_octets (256 * acc + v)%N rest
  end.

Definition _ip_int_from_string (ip_str : string) : result N :=
  if negb (Str.truthy ip_str) then Raise AddressValueError
  else
    let octets := Str.split "." ip_str in
    if negb (length octets =? 4)%nat then Raise AddressValueError
    else reraise is_ValueError AddressValueError (from_octets 0 octets).

(** [IPv4Address(address)] on a string *)
Definition IPv4Address (address : string) : result N :=
  if Str.contains "/" address then Raise AddressValueError
  else _ip_int_from_string address.

(** [_prefix_from_ip_string]: a netmask or a hostmask in dotted form *)
Definition _prefix_from_ip_string (ip_str : string) : result N :=
  let! ip_int :=
    reraise is_AddressValueError NetmaskValueError (_ip_int_from_string ip_str) in
  match _prefix_from_ip_int _max_prefixlen ip_int with
  | Ok p => Ok p
  | Raise e =>
      if is_ValueError e then
        let ip_int := N.lxor ip_int (_ALL_ONES _max_prefixlen) in
        reraise is_ValueError NetmaskValueError
                (_prefix_from_ip_int _max_prefixlen ip_int)
      else Raise e
  end.

(** [_make_netmask]: the prefix length ([netmask] is
    [_ip_int_from_prefix] of it) *)
Definition _make_netmask (arg : option string) : result N :=
  match arg with
  | None => Ok _max_prefixlen
  | Some s =>
      match _prefix_from_prefix_string _max_prefixlen s with
      | Ok p => Ok p
      | Raise NetmaskValueError => _prefix_from_ip_string s
      | Raise e => Raise e
      end
  end.

(** [IPv4Network(address, strict=True)] on a string *)
Definition IPv4Network (address : string) : result ip_net :=
  let! addr_mask := _split_addr_prefix address in
  let addr := fst addr_mask in
  let mask := snd addr_mask in
  let! network_address := IPv4Address addr in
  let! prefixlen := _make_netmask mask in
  let netmask := _ip_int_from_prefix _max_prefixlen prefixlen in
  let packed := network_address in
  if negb (N.land packed netmask =? packed)%N then Raise ValueError
  else Ok (IPv4Net network_address prefixlen).
End IPv4.

Module IPv6.
Definition _max_prefixlen : N := 128.
Definition _HEXTET_COUNT : nat := 8.

Definition _parse_hextet (hextet_str : string) : result N :=
  match Str.int16_go 0 hextet_str with
  | None => Raise ValueError
  | Some v =>
      if (4 <? String.length hextet_str)%nat then Raise ValueError
      else if negb (Str.truthy hextet_str) then Raise ValueError
      else Ok v
  end.

(** [ip_int <<= 16; ip_int |= _parse_hextet(part)] over [parts] *)
Fixpoint parse_hextets (ip_int : N) (parts : list string) : result N :=
  match parts with
  | [] => Ok ip_int
  | p :: rest =>
      let! v := _parse_hextet p in
      parse_hextets (N.lor (N.shiftl ip_int 16) v) rest
  end.

(** The loop over [range(1, len(parts) - 1)] that looks for the one
    empty part a double colon leaves. *)
Fixpoint find_skip (i : nat) (middle : list string) (skip_index : option nat)
  : result (option nat) :=
  match middle with
  | [] => Ok skip_index
  | p :: rest =>
      if negb (Str.truthy p) then
        match skip_index with
        | Some _ => Raise AddressValueError
        | None => find_skip (S i) rest (Some i)
        end
      else find_skip (S i) rest skip_index
  end.

Definition _ip_int_from_string (ip_str : string) : result N :=
  if negb (Str.truthy ip_str) then Raise AddressValueError
  else
    let parts := Str.split ":" ip_str in
    if (length parts <? 3)%nat then Raise AddressValueError
    else
      let! parts :=
        (if Str.contains "." (List.last parts EmptyString) then
           let! ipv4_int :=
             reraise is_AddressValueError AddressValueError
                     (IPv4.IPv4Address (List.last parts EmptyString)) in
           Ok (List.removelast parts
                 ++ [Str.hex (N.land (N.shiftr ipv4_int 16) 65535);
                     Str.hex (N.land ipv4_int 65535)])
         else Ok parts) in
      if (_HEXTET_COUNT + 1 <? length parts)%nat then Raise AddressValueError
      else
        let! skip_index := find_skip 1 (List.removelast (List.tl parts)) None in
        let first_empty := negb (Str.truthy (List.hd EmptyString parts)) in
        let last_empty := negb (Str.truthy (List.last parts EmptyString)) in
        let! counts :=
          match skip_index with
          | Some skip_index =>
              let parts_hi := skip_index in
              let parts_lo := (length parts - skip_index - 1)%nat in
              if first_empty && negb (parts_hi - 1 =? 0)%nat
              then Raise AddressValueError
              else
                let parts_hi := if first_empty then (parts_hi - 1)%nat else parts_hi in
                if last_empty && negb (parts_lo - 1 =? 0)%nat
                then Raise AddressValueError
                else
                  let parts_lo := if last_empty then (parts_lo - 1)%nat else parts_lo in
                  if (_HEXTET_COUNT <? parts_hi + parts_lo + 1)%nat
                  then Raise AddressValueError
                  else Ok (parts_hi, parts_lo, (_HEXTET_COUNT - (parts_hi + parts_lo))%nat)
          | None =>
              if negb (length parts =? _HEXTET_COUNT)%nat then Raise AddressValueError
              else if first_empty then Raise AddressValueError
              else if last_empty then Raise AddressValueError
              else Ok (length parts, 0%nat, 0%nat)
          end in
        let '(parts_hi, parts_lo, parts_skipped) := counts in
        reraise is_ValueError AddressValueError
          (let! ip_int := parse_hextets 0 (firstn parts_hi parts) in
           let ip_int := N.shiftl ip_int (16 * N.of_nat parts_skipped) in
           parse_hextets ip_int (skipn (length parts - parts_lo) parts)).

Definition _split_scope_id (ip_str : string) : result (string * option string) :=
  let '(addr, sep, scope_id) := Str.partition "%" ip_str in
  if negb sep then Ok (addr, None)
  else if negb (Str.truthy scope_id) || Str.contains "%" scope_id
       then Raise AddressValueError
  else Ok (addr, Some scope_id).

(** [IPv6Address(address)] on a string: the integer and the scope id *)
Definition IPv6Address (address : string) : result (N * option string) :=
  if Str.contains "/" address then Raise AddressValueError
  else
    let! addr_scope := _split_scope_id address in
    let! ip := _ip_int_from_string (fst addr_scope) in
    Ok (ip, snd addr_scope).

Definition _make_netmask (arg : option string) : result N :=
  match arg with
  | None => Ok _max_prefixlen
  | Some s => _prefix_from_prefix_string _max_prefixlen s
  end.

(** [IPv6Network(address, strict=True)] on a string *)
Definition IPv6Network (address : string) : result ip_net :=
  let! addr_mask := _split_addr_prefix address in
  let addr := fst addr_mask in
  let mask := snd addr_mask in
  let! network_address := IPv6Address addr in
  let! prefixlen := _make_netmask mask in
  let netmask := _ip_int_from_prefix _max_prefixlen prefixlen in
  let packed := fst network_address in
  if negb (N.land packed netmask =? packed)%N then Raise ValueError
  else Ok (IPv6Net packed prefixlen (snd network_address)).
End IPv6.

(** [try: return a  except (AddressValueError, NetmaskValueError): pass],
    then [b] *)
Definition or_else {A} (a b : result A) : result A :=
  match a with
  | Ok x => Ok x
  | Raise e => if is_Address_or_Netmask_error e then b else Raise e
  end.

Definition ip_address (address : string) : result ip_addr :=
  or_else (let! ip := IPv4.IPv4Address address in Ok (IPv4Addr ip))
    (or_else (let! a := IPv6.IPv6Address address in Ok (IPv6Addr (fst a) (snd a)))
       (Raise ValueError)).

Definition ip_network (address : string) : result ip_net :=
  or_else (IPv4.IPv4Network address)
    (or_else (IPv6.IPv6Network address) (Raise ValueError)).

(** [network.netmask._ip] *)
Definition netmask (net : ip_net) : N :=
  match net with
  | IPv4Net _ prefixlen => _ip_int_from_prefix IPv4._max_prefixlen prefixlen
  | IPv6Net _ prefixlen _ => _ip_int_from_prefix IPv6._max_prefixlen prefixlen
  end.

(** [other in self]: [_BaseNetwork.__contains__] on an address *)
Definition contains (self : ip_net) (other : ip_addr) : bool :=
  match self, other with
  | IPv4Net network_address _, IPv4Addr ip
  | IPv6Net network_address _ _, IPv6Addr ip _ =>
      (N.land ip (netmask self) =? network_address)%N
  | _, _ => false
  end.

End ipaddress.

(** ** The collaborators: [psutil], [subprocess], [os], [time] *)

(** [psutil]'s [addr] named tuple *)
Record addr := { ip : string; port : N }.

Inductive conn_status :=
| CONN_ESTABLISHED | CONN_SYN_SENT | CONN_SYN_RECV | CONN_FIN_WAIT1
| CONN_FIN_WAIT2 | CONN_TIME_WAIT | CONN_CLOSE | CONN_CLOSE_WAIT
| CONN_LAST_ACK | CONN_LISTEN | CONN_CLOSING | CONN_NONE.

(** [psutil]'s [sconn]: [laddr] and [raddr] are an [addr] or the empty
    tuple, [pid] is an integer or [None]. *)
Record sconn := {
  laddr : option addr;
  raddr : option addr;
  status : conn_status;
  pid : option N }.

(** [psutil.net_connections(kind='inet')] *)
Inductive sample_result :=
| Sampled (connections : list sconn)
| SampleRaises.

(** [psutil.Process(pid).name()] *)
Inductive process_result :=
| ProcessName (name : string)
| NoSuchProcess
| AccessDenied
| ProcessRaises.

(** The text of a notification: the fields the f-string of lines 138-141
    puts together. *)
Record message := {
  msg_target : addr;
  msg_process : string;
  msg_range : option ip_net }.

(** The command [send_notification] runs: [notify-send] itself, or the
    same through [sudo -u user]. *)
Inductive command :=
| NotifySend (title : string) (m : message)
| SudoNotifySend (user : string) (title : string) (m : message).

(** [subprocess.run(cmd, capture_output=True, text=True)]: a completed
    process with its return code, or an exception (the program is missing,
    say). *)
Inductive run_result :=
| Completed (returncode : N)
| RunRaises.

(** [int(os.getenv('MONITOR_INTERVAL', '2'))] and [time.sleep] of it: the
    sleep ends, one of the two raises [ValueError], or Ctrl+C arrives (the
    sleep is where the loop spends its time; an interrupt at another point
    of the cycle is not modelled). *)
Inductive sleep_result :=
| Slept
| SleepRaises
| Interrupted.

(** What the host supplies during one cycle of the loop. *)
Record cycle_world := {
  net_connections : sample_result;
  Process_name : N → process_result;
  subprocess_run : command → run_result;
  sleep : sleep_result }.

(** The process environment: [os.environ] once [load_dotenv()] has run, and
    [os.geteuid()]. *)
Record os_state := {
  environ : gmap string string;
  geteuid : N }.

Definition getenv (os : os_state) (key fallback : string) : string :=
  default fallback (environ os !! key).

(** ** What the program prints and does *)

Record alert := {
  alert_remote : addr;
  alert_local_port : N;
  alert_matched_range : option ip_net;
  alert_process_name : string;
  alert_pid : option N }.

(** The lines printed and the calls of [subprocess.run], in the order the
    program makes them. *)
Inductive output :=
| WarnInvalidRange (range_str : string)          (* line 23 *)
| WarnNoValidRanges                              (* line 26 *)
| WarnInvalidExcludeRange (range_str : string)   (* line 39 *)
| WarnNotRoot                                    (* line 44 *)
| PrintAlert (a : alert)                         (* lines 131-135 *)
| Run (cmd : command)                            (* lines 58, 61 *)
| PrintNotifyFailed                              (* line 64 *)
| PrintStopping                                  (* line 152 *)
| PrintError.                                    (* line 154 *)

(** How a block of statements ends: normally, with an [Exception], or with
    [KeyboardInterrupt]. *)
Inductive signal := Normal | Exc | KbdInterrupt.

(** ** [NetworkMonitor] *)

Record NetworkMonitor := {
  target_ranges : list ip_net;
  exclude_ranges : list ip_net;
  alerted_connections : gset string }.

Definition set_alerted (self : NetworkMonitor) (s : gset string) : NetworkMonitor :=
  {| target_ranges := target_ranges self;
     exclude_ranges := exclude_ranges self;
     alerted_connections := s |}.

(** The loops of lines 17-23 and 33-39 on the entries left to read:
    [ranges] is the list built so far, [warn] the warning of that loop. *)
Fixpoint parse_ranges (warn : string → output) (entries : list string)
    (ranges : list ip_net) : list ip_net * list output :=
  match entries with
  | [] => (ranges, [])
  | range_str :: rest =>
      let range_str := Str.strip range_str in
      if Str.truthy range_str then
        match ipaddress.ip_network range_str with
        | Ok net => parse_ranges warn rest (ranges ++ [net])
        | Raise e =>
            (* except ValueError *)
            let '(ranges, out) := parse_ranges warn rest ranges in
            (ranges, warn range_str :: out)
        end
      else parse_ranges warn rest ranges
  end.

Definition default_TARGET_IP_RANGES : string :=
  "10.10.0.0/8,172.16.0.0/12,192.168.0.0/16".
Definition default_EXCLUDE_IP_RANGES : string := "192.168.1.1/32".

(** [NetworkMonitor.__init__]: the output, and the new object or the
    argument of [exit]. *)
Definition __init__ (os : os_state) : list output * (NetworkMonitor + N) :=
  let ip_ranges_str := getenv os "TARGET_IP_RANGES" default_TARGET_IP_RANGES in
  let '(target_ranges, out1) :=
    parse_ranges WarnInvalidRange (Str.split "," ip_ranges_str) [] in
  match target_ranges with
  | [] => (out1 ++ [WarnNoValidRanges], inr 1%N)
  | _ =>
      let exclude_ranges_str :=
        getenv os "EXCLUDE_IP_RANGES" default_EXCLUDE_IP_RANGES in
      let '(exclude_ranges, out2) :=
        parse_ranges WarnInvalidExcludeRange (Str.split "," exclude_ranges_str) [] in
      (out1 ++ out2 ++ (if negb (geteuid os =? 0)%N then [WarnNotRoot] else []),
       inl {| target_ranges := target_ranges;
              exclude_ranges := exclude_ranges;
              alerted_connections := ∅ |})
  end.

(** [send_notification]: returns [None] and never raises an [Exception]. *)
Definition send_notification (os : os_state) (w : cycle_world)
    (title : string) (m : message) : list output :=
  let user := default (getenv os "USER" "root") (environ os !! "SUDO_USER") in
  let cmd :=
    if negb (String.eqb user "root") && (geteuid os =? 0)%N
    then SudoNotifySend user title m
    else NotifySend title m in
  match subprocess_run w cmd with
  | Completed _ => [Run cmd]
  | RunRaises => [Run cmd; PrintNotifyFailed]
  end.

(** The [for] loops of [is_target_ip] and [is_excluded_ip]; the source
    returns [str] of the range, the model the range itself. *)
Fixpoint first_match (ip : ip_addr) (ranges : list ip_net) : bool * option ip_net :=
  match ranges with
  | [] => (false, None)
  | r :: rest =>
      if ipaddress.contains r ip then (true, Some r) else first_match ip rest
  end.

Definition is_target_ip (self : NetworkMonitor) (ip_str : string)
  : bool * option ip_net :=
  match ipaddress.ip_address ip_str with
  | Ok ip => first_match ip (target_ranges self)
  | Raise _ => (false, None)   (* except (AddressValueError, ValueError) *)
  end.

Definition is_excluded_ip (self : NetworkMonitor) (ip_str : string)
  : bool * option ip_net :=
  match ipaddress.ip_address ip_str with
  | Ok ip => first_match ip (exclude_ranges self)
  | Raise _ => (false, None)   (* except (AddressValueError, ValueError) *)
  end.

(** [get_process_name]: [None] when [psutil] raises something else than
    the two exceptions caught. *)
Definition get_process_name (w : cycle_world) (pid : N) : option string :=
  match Process_name w pid with
  | ProcessName name => Some name
  | NoSuchProcess | AccessDenied => Some "Unknown"
  | ProcessRaises => None
  end.

(** [f"{remote_ip}:{remote_port}"] *)
Definition conn_id (a : addr) : string := ip a +:+ ":" +:+ pretty (port a).

(** [bool(conn.pid)] *)
Definition pid_truthy (pid : option N) : option N :=
  match pid with
  | Some 0%N | None => None
  | Some p => Some p
  end.

(** The body of the [for] loop of lines 110-143 on one connection. *)
Definition for_body (os : os_state) (w : cycle_world) (self : NetworkMonitor)
    (conn : sconn) : list output * NetworkMonitor * signal :=
  match status conn, raddr conn, laddr conn with
  | CONN_ESTABLISHED, Some r, Some l =>
      let remote_ip := ip r in
      let remote_port := port r in
      let local_port := port l in
      let '(is_excluded, excluded_range) := is_excluded_ip self remote_ip in
      if is_excluded then ([], self, Normal)
      else
        let '(is_target, matched_range) := is_target_ip self remote_ip in
        if is_target then
          let conn_id := conn_id r in
          if bool_decide (conn_id ∈ alerted_connections self) then ([], self, Normal)
          else
            match
              match pid_truthy (pid conn) with
              | Some p => get_process_name w p
              | None => Some "Unknown"
              end
            with
            | None => ([], self, Exc)
            | Some process_name =>
                let a := {| alert_remote := r;
                            alert_local_port := local_port;
                            alert_matched_range := matched_range;
                            alert_process_name := process_name;
                            alert_pid := pid conn |} in
                let title := "Bepa Alert" in
                let m := {| msg_target := r;
                            msg_process := process_name;
                            msg_range := matched_range |} in
                let out := send_notification os w title m in
                (PrintAlert a :: out,
                 set_alerted self ({[conn_id]} ∪ alerted_connections self),
                 Normal)
            end
        else ([], self, Normal)
  | _, _, _ => ([], self, Normal)
  end.

(** The [for] loop of line 110: it stops at the first exception. *)
Fixpoint for_connections (os : os_state) (w : cycle_world) (self : NetworkMonitor)
    (connections : list sconn) : list output * NetworkMonitor * signal :=
  match connections with
  | [] => ([], self, Normal)
  | conn :: rest =>
      match for_body os w self conn with
      | (out, self, Normal) =>
          let '(out', self, sig) := for_connections os w self rest in
          (out ++ out', self, sig)
      | r => r
      end
  end.

(** The set comprehension of lines 145-147 *)
Definition active_connections (connections : list sconn) : gset string :=
  list_to_set
    (omap (fun conn =>
             match raddr conn, status conn with
             | Some r, CONN_ESTABLISHED => Some (conn_id r)
             | _, _ => None
             end) connections).

(** Line 148: [self.alerted_connections &= active_connections] *)
Definition reconcile (alerted active : gset string) : gset string :=
  alerted ∩ active.

(** One turn of the [while True] loop, lines 108-150. *)
Definition cycle (os : os_state) (w : cycle_world) (self : NetworkMonitor)
  : list output * NetworkMonitor * signal :=
  match net_connections w with
  | SampleRaises => ([], self, Exc)
  | Sampled connections =>
      match for_connections os w self connections with
      | (out, self, Normal) =>
          let active_connections := active_connections connections in
          let self :=
            set_alerted self (reconcile (alerted_connections self) active_connections) in
          (out, self,
           match sleep w with
           | Slept => Normal
           | SleepRaises => Exc
           | Interrupted => KbdInterrupt
           end)
      | r => r
      end
  end.

(** [monitor_connections] against the worlds of the cycles to come: the
    output of each cycle that ran, and the object if the loop is still
    running when the worlds are used up, [None] once the method has
    returned through one of its [except] clauses. *)
Fixpoint monitor_connections (os : os_state) (self : NetworkMonitor)
    (worlds : list cycle_world) : list (list output) * option NetworkMonitor :=
  match worlds with
  | [] => ([], Some self)
  | w :: rest =>
      match cycle os w self with
      | (out, self, Normal) =>
          let '(trace, final) := monitor_connections os self rest in
          (out :: trace, final)
      | (out, _, KbdInterrupt) => ([out ++ [PrintStopping]], None)
      | (out, _, Exc) => ([out ++ [PrintError]], None)
      end
  end.

(** [subprocess.run(['which', 'notify-send'], capture_output=True,
    check=True)] in [main]: found, not found ([CalledProcessError], which
    [main] catches), or another exception, which nothing catches. *)
Inductive which_result :=
| WhichFound
| WhichCalledProcessError
| WhichRaises.

(** The state of the process at the end of the worlds supplied: still in
    the loop, or exited with a code. *)
Inductive process_state :=
| Running (self : NetworkMonitor)
| Exited (code : N).

Record run := {
  startup_output : list output;
  started : bool;                  (* [monitor_connections] was called *)
  trace : list (list output);      (* the output of each cycle *)
  state : process_state }.

(** [main]; the banner and the warning about [notify-send] are not part of
    the output kept.  The run starts at the [try] of [monitor_connections]
    (line 106): its header lines 98-104, and an interrupt or an error while
    they are printed, are outside the model. *)
Definition main (os : os_state) (which : which_result) (worlds : list cycle_world)
  : run :=
  match which with
  | WhichRaises =>
      {| startup_output := []; started := false; trace := []; state := Exited 1 |}
  | _ =>
      match __init__ os with
      | (out, inr code) =>
          {| startup_output := out; started := false; trace := [];
             state := Exited code |}
      | (out, inl monitor) =>
          let '(trace, final) := monitor_connections os monitor worlds in
          {| startup_output := out; started := true; trace := trace;
             state := match final with
                      | Some self => Running self
                      | None => Exited 0
                      end |}
      end
  end.

(** ** The vocabulary of the specification *)

(** [classify] of the range matcher: the decision lines 118-124 take on a
    remote address. *)
Inductive classification :=
| Excluded
| Targeted (matched : option ip_net)
| Ignored.

Definition classify (self : NetworkMonitor) (ip_str : string) : classification :=
  if fst (is_excluded_ip self ip_str) then Excluded
  else if fst (is_target_ip self ip_str) then Targeted (snd (is_target_ip self ip_str))
  else Ignored.

(** The address is a member of one of the ranges. *)
Definition member (ranges : list ip_net) (ip_str : string) : Prop :=
  ∃ a r, ipaddress.ip_address ip_str = Ok a ∧ r ∈ ranges
         ∧ ipaddress.contains r a = true.

(** The remote endpoint an alert line or a notification is about. *)
Definition subject (o : output) : option addr :=
  match o with
  | PrintAlert a => Some (alert_remote a)
  | Run (NotifySend _ m) | Run (SudoNotifySend _ _ m) => Some (msg_target m)
  | _ => None
  end.

(** The endpoints alerted in a piece of output, in order. *)
Definition alerts (out : list output) : list addr :=
  omap (fun o => match o with PrintAlert a => Some (alert_remote a) | _ => None end) out.

(** The endpoint is in the set observed in this cycle. *)
Definition observed (k : addr) (w : cycle_world) : Prop :=
  match net_connections w with
  | Sampled connections => conn_id k ∈ active_connections connections
  | SampleRaises => False
  end.


(** What a single entry contributes when read on its own. *)
Definition entry_network (entry : string) : option ip_net :=
  if Str.truthy (Str.strip entry) then
    match ipaddress.ip_network (Str.strip entry) with
    | Ok net => Some net
    | Raise _ => None
    end
  else None.

(** ** The steps of the loop, as relations

    The three ways the body of the [for] loop can end: nothing happens;
    the process lookup raises and nothing has happened; or one alert fires
    for the remote endpoint and its key enters the memory. *)
Inductive body_step (os : os_state) (w : cycle_world) (self : NetworkMonitor)
    (conn : sconn) : list output → NetworkMonitor → signal → Prop :=
| body_skip : body_step os w self conn [] self Normal
| body_raise : body_step os w self conn [] self Exc
| body_alert r l a m :
    status conn = CONN_ESTABLISHED →
    raddr conn = Some r →
    laddr conn = Some l →
    fst (is_excluded_ip self (ip r)) = false →
    fst (is_target_ip self (ip r)) = true →
    conn_id r ∉ alerted_connections self →
    alert_remote a = r →
    msg_target m = r →
    body_step os w self conn
      (PrintAlert a :: send_notification os w "Bepa Alert" m)
      (set_alerted self ({[conn_id r]} ∪ alerted_connections self))
      Normal.

(** A run of the [for] loop as a sequence of body steps. *)
Inductive loop_run (os : os_state) (w : cycle_world)
  : NetworkMonitor → list sconn → list output → NetworkMonitor → signal → Prop :=
| run_nil self : loop_run os w self [] [] self Normal
| run_stop self conn rest out self' sig :
    body_step os w self conn out self' sig →
    sig ≠ Normal →
    loop_run os w self (conn :: rest) out self' sig
| run_cons self conn rest out1 self1 out2 self2 sig :
    body_step os w self conn out1 self1 Normal →
    loop_run os w self1 rest out2 self2 sig →
    loop_run os w self (conn :: rest) (out1 ++ out2) self2 sig.

#[local] Instance observed_dec k w : Decision (observed k w).
Proof. unfold observed. destruct (net_connections w); apply _. Defined.

(** The reading of C4 in the specification: after a cycle whose sampling
    raises, the loop goes on to the cycle that follows, if the host has
    one. *)
Definition loop_survives_sampling_failure (os : os_state) (self : NetworkMonitor)
    (w : cycle_world) (rest : list cycle_world) : Prop :=
  net_connections w = SampleRaises →
  rest ≠ [] →
  (1 < length (fst (monitor_connections os self (w :: rest))))%nat.

(** The warning an entry gives when read on its own. *)
Definition entry_warning (warn : string → output) (entry : string) : option output :=
  if Str.truthy (Str.strip entry) then
    match ipaddress.ip_network (Str.strip entry) with
    | Ok _ => None
    | Raise _ => Some (warn (Str.strip entry))
    end
  else None.

(** ** Scenarios *)

(** No configuration, run as root. *)
Definition unconfigured_os : os_state := {| environ := ∅; geteuid := 0 |}.

(** [TARGET_IP_RANGES] with no entry that parses. *)
Definition misconfigured_os : os_state :=
  {| environ := {[ "TARGET_IP_RANGES" := "999.1.1.1/33, ten.dot/8" ]}; geteuid := 0 |}.

(** target = [10.0.0.0/8], exclude = [10.0.0.1/32], nothing alerted yet *)
Definition scenario_monitor : NetworkMonitor :=
  {| target_ranges := [IPv4Net 167772160 8];
     exclude_ranges := [IPv4Net 167772161 32];
     alerted_connections := ∅ |}.

Definition established (remote : addr) : sconn :=
  {| laddr := Some {| ip := "10.0.0.9"; port := 50000 |};
     raddr := Some remote;
     status := CONN_ESTABLISHED;
     pid := Some 4242%N |}.

(** A cycle in which every collaborator works. *)
Definition sound_world (connections : list sconn) : cycle_world :=
  {| net_connections := Sampled connections;
     Process_name := fun _ => ProcessName "curl";
     subprocess_run := fun _ => Completed 0;
     sleep := Slept |}.

(** A cycle in which [notify-send] cannot be run. *)
Definition no_sink_world (connections : list sconn) : cycle_world :=
  {| net_connections := Sampled connections;
     Process_name := fun _ => ProcessName "curl";
     subprocess_run := fun _ => RunRaises;
     sleep := Slept |}.

(** A cycle in which the connection table cannot be read. *)
Definition no_sample_world : cycle_world :=
  {| net_connections := SampleRaises;
     Process_name := fun _ => ProcessName "curl";
     subprocess_run := fun _ => Completed 0;
     sleep := Slept |}.

Definition web : addr := {| ip := "10.0.0.2"; port := 443 |}.
Definition gateway : addr := {| ip := "10.0.0.1"; port := 443 |}.

(** The endpoint is seen, then not, then seen again. *)
Definition flapping_worlds : list cycle_world :=
  [sound_world [established web]; sound_world []; sound_world [established web]].

(** ** Further vocabulary *)

(** The endpoint the loop body would alert for this connection, were its
    key not in the memory: the tests of lines 111-124. *)
Definition eligible (self : NetworkMonitor) (conn : sconn) : option addr :=
  match status conn, raddr conn, laddr conn with
  | CONN_ESTABLISHED, Some r, Some _ =>
      if fst (is_excluded_ip self (ip r)) then None
      else if fst (is_target_ip self (ip r)) then Some r
      else None
  | _, _, _ => None
  end.

(** No process lookup of the cycle raises anything but the two exceptions
    [get_process_name] catches. *)
Definition lookups_succeed (w : cycle_world) : Prop :=
  ∀ p, Process_name w p ≠ ProcessRaises.


(** The key is in the set observed in this cycle. *)
Definition key_observed (key : string) (w : cycle_world) : Prop :=
  match net_connections w with
  | Sampled connections => key ∈ active_connections connections
  | SampleRaises => False
  end.

(** [s] is made of white space only. *)
Fixpoint all_space (s : string) : bool :=
  match s with
  | EmptyString => true
  | String c r => Str.isspace c && all_space r
  end.

(** The text of an IPv4 address, as the connection table gives it: four
    decimal numbers with dots between them. *)
Definition dotted (a b c d : N) : string :=
  pretty a +:+ "." +:+ pretty b +:+ "." +:+ pretty c +:+ "." +:+ pretty d.

(** The value of the address [a.b.c.d]. *)
Definition quad (a b c d : N) : N := (((a * 256 + b) * 256 + c) * 256 + d)%N.

(** The numbers from 0 to 255. *)
Definition octets : list N := map N.of_nat (seq 0 256).

(** A cycle that ends with Ctrl+C during the sleep. *)
Definition interrupted_world (connections : list sconn) : cycle_world :=
  {| net_connections := Sampled connections;
     Process_name := fun _ => ProcessName "curl";
     subprocess_run := fun _ => Completed 0;
     sleep := Interrupted |}.

(** A cycle in which the process table cannot be read at all. *)
Definition no_process_world (connections : list sconn) : cycle_world :=
  {| net_connections := Sampled connections;
     Process_name := fun _ => ProcessRaises;
     subprocess_run := fun _ => Completed 0;
     sleep := Slept |}.

(** A cycle in which the owning process has gone by the time it is
    looked up. *)
Definition gone_process_world (connections : list sconn) : cycle_world :=
  {| net_connections := Sampled connections;
     Process_name := fun _ => NoSuchProcess;
     subprocess_run := fun _ => Completed 0;
     sleep := Slept |}.

(** A listening socket, and a connection whose local address is not
    known. *)
Definition listening : sconn :=
  {| laddr := Some {| ip := "0.0.0.0"; port := 22 |};
     raddr := None;
     status := CONN_LISTEN;
     pid := Some 1%N |}.

Definition half_known (remote : addr) : sconn :=
  {| laddr := None;
     raddr := Some remote;
     status := CONN_ESTABLISHED;
     pid := None |}.

(** [TARGET_IP_RANGES] and [EXCLUDE_IP_RANGES] written with spaces, an
    empty entry and an entry that does not parse. *)
Definition untidy_os : os_state :=
  {| environ := {[ "TARGET_IP_RANGES" := " 10.0.0.0/8 ,,bogus, 192.168.0.0/16";
                   "EXCLUDE_IP_RANGES" := "" ]};
     geteuid := 1000 |}.

(** A range is a proper block: its prefix length is within the version's
    width and its network address has no host bit set. *)
Definition proper_block (net : ip_net) : Prop :=
  match net with
  | IPv4Net n p => (p ≤ 32)%N ∧ (n < 2 ^ 32)%N ∧ N.land n (ipaddress.netmask net) = n
  | IPv6Net n p _ => (p ≤ 128)%N ∧ N.land n (ipaddress.netmask net) = n
  end.

(** The network address of a range, as an address. *)
Definition network_address_of (net : ip_net) : ip_addr :=
  match net with
  | IPv4Net n _ => IPv4Addr n
  | IPv6Net n _ scope => IPv6Addr n scope
  end.

(** ** Vocabulary for the notifications and the end of the loop *)

(** The endpoints notified in a piece of output, in order: the targets of
    the [notify-send] commands run (lines 137-142). *)
Definition notifications (out : list output) : list addr :=
  omap (fun o => match o with
                 | Run (NotifySend _ m) | Run (SudoNotifySend _ _ m) => Some (msg_target m)
                 | _ => None
                 end) out.

(** The sink has failed to deliver: the command raised, or it ran and
    exited with a status other than 0. *)
Definition sink_fails (r : run_result) : Prop :=
  match r with
  | RunRaises => True
  | Completed returncode => returncode ≠ 0%N
  end.

(** The reading of C7 in the specification: when the sink fails while the
    alert of a connection is dispatched, the failure is printed. *)
Definition sink_failure_is_logged (os : os_state) (w : cycle_world)
    (self : NetworkMonitor) (conn : sconn) : Prop :=
  ∀ a cmd out self' sig,
    for_body os w self conn = (PrintAlert a :: Run cmd :: out, self', sig) →
    sink_fails (subprocess_run w cmd) →
    PrintNotifyFailed ∈ out.

(** One of the two lines an [except] clause of [monitor_connections]
    prints. *)
Definition closing_line (o : output) : Prop := o = PrintStopping ∨ o = PrintError.

(** A cycle in which [notify-send] runs and exits with status 1 (no
    display to show the notification on, say). *)
Definition failed_sink_world (connections : list sconn) : cycle_world :=
  {| net_connections := Sampled connections;
     Process_name := fun _ => ProcessName "curl";
     subprocess_run := fun _ => Completed 1;
     sleep := Slept |}.

(** A connection to [remote] that is closing down. *)
Definition lingering (remote : addr) : sconn :=
  {| laddr := Some {| ip := "10.0.0.9"; port := 50001 |};
     raddr := Some remote;
     status := CONN_TIME_WAIT;
     pid := None |}.

Definition db : addr := {| ip := "10.0.0.7"; port := 5432 |}.

(** * Properties *)

(** ** The model on concrete inputs *)

Example ip_network_strict :
  ipaddress.ip_network "10.0.0.0/8" = Ok (IPv4Net 167772160 8)
  ∧ ipaddress.ip_network "10.10.0.0/8" = Raise ValueError
  ∧ ipaddress.ip_network "192.168.1.1" = Ok (IPv4Net 3232235777 32)
  ∧ ipaddress.ip_network "10.0.0.0/255.0.0.0" = Ok (IPv4Net 167772160 8)
  ∧ ipaddress.ip_network "10.0.0.0/0.255.255.255" = Ok (IPv4Net 167772160 8)
  ∧ ipaddress.ip_network "999.1.1.1/33" = Raise ValueError
  ∧ ipaddress.ip_network "10.0.0.01/32" = Raise ValueError
  ∧ ipaddress.ip_network "fe80::/10"
    = Ok (IPv6Net 338288524927261089654018896841347694592 10 None)
  ∧ ipaddress.ip_network "fe80::1/10" = Raise ValueError
  ∧ ipaddress.ip_network "::ffff:10.0.0.1" = Ok (IPv6Net 281470849515521 128 None)
  ∧ ipaddress.ip_network "1:2:3:4:5:6:7:8::" = Raise ValueError.
Proof. repeat split; vm_compute; reflexivity. Qed.

Example ip_address_versions :
  ipaddress.ip_address "10.0.0.1" = Ok (IPv4Addr 167772161)
  ∧ ipaddress.ip_address "::1" = Ok (IPv6Addr 1 None)
  ∧ ipaddress.ip_address "fe80::1%eth0"
    = Ok (IPv6Addr 338288524927261089654018896841347694593 (Some "eth0"))
  ∧ ipaddress.ip_address "10.0.0.1/8" = Raise ValueError
  ∧ ipaddress.ip_address "" = Raise ValueError
  ∧ ipaddress.contains (IPv4Net 167772160 8) (IPv4Addr 167772161) = true
  ∧ ipaddress.contains (IPv4Net 167772160 8) (IPv4Addr 184549376) = false
  ∧ ipaddress.contains (IPv4Net 0 0) (IPv6Addr 1 None) = false.
Proof. repeat split; vm_compute; reflexivity. Qed.

Example split_strip :
  Str.split "," " 10.0.0.0/8 ,,172.16.0.0/12," = [" 10.0.0.0/8 "; ""; "172.16.0.0/12"; ""]
  ∧ Str.strip " 10.0.0.0/8 " = "10.0.0.0/8"
  ∧ conn_id {| ip := "::1"; port := 8080 |} = "::1:8080".
Proof. repeat split; vm_compute; reflexivity. Qed.

(** The endpoint is alerted when it appears, forgotten when it is gone, and
    alerted again when it comes back; the excluded gateway never is. *)
Example flapping_endpoint :
  map alerts (fst (monitor_connections unconfigured_os scenario_monitor flapping_worlds))
  = [[web]; []; [web]]
  ∧ map alerts
      (fst (monitor_connections unconfigured_os scenario_monitor
              [sound_world [established gateway; established web; established web];
               sound_world [established web; established gateway]]))
    = [[web]; []].
Proof. split; vm_compute; reflexivity. Qed.

(** ** Range matching *)

Lemma first_match_true ip ranges :
  fst (first_match ip ranges) = true ↔ ∃ r, r ∈ ranges ∧ ipaddress.contains r ip = true.
Proof.
  induction ranges as [|r rest IH]; simpl.
  - split; [discriminate|]. intros (r & Hr & _). by apply elem_of_nil in Hr.
  - destruct (ipaddress.contains r ip) eqn:Hc; simpl.
    + split; [|done]. intros _. exists r. split; [left|done].
    + rewrite IH. split.
      * intros (r' & Hin & Hc'). exists r'. split; [by right|done].
      * intros (r' & Hin & Hc'). apply elem_of_cons in Hin as [->|Hin].
        -- congruence.
        -- eauto.
Qed.

Lemma is_excluded_ip_member self ip_str :
  member (exclude_ranges self) ip_str ↔ fst (is_excluded_ip self ip_str) = true.
Proof.
  unfold member, is_excluded_ip. split.
  - intros (a & r & -> & Hr & Hc). apply first_match_true. eauto.
  - destruct (ipaddress.ip_address ip_str) as [a|e]; simpl; [|discriminate].
    intros (r & Hr & Hc)%first_match_true. eauto.
Qed.

Lemma is_target_ip_member self ip_str :
  member (target_ranges self) ip_str ↔ fst (is_target_ip self ip_str) = true.
Proof.
  unfold member, is_target_ip. split.
  - intros (a & r & -> & Hr & Hc). apply first_match_true. eauto.
  - destruct (ipaddress.ip_address ip_str) as [a|e]; simpl; [|discriminate].
    intros (r & Hr & Hc)%first_match_true. eauto.
Qed.

(** ** The loop body *)

Lemma for_body_step os w self conn :
  let '(out, self', sig) := for_body os w self conn in
  body_step os w self conn out self' sig.
Proof.
  unfold for_body.
  destruct (status conn) eqn:Hst; try (destruct (raddr conn), (laddr conn); constructor).
  destruct (raddr conn) as [r|] eqn:Hr; [|constructor].
  destruct (laddr conn) as [l|] eqn:Hl; [|constructor].
  destruct (is_excluded_ip self (ip r)) as [ex exr] eqn:Hex.
  destruct ex; [constructor|].
  destruct (is_target_ip self (ip r)) as [tg tgr] eqn:Htg.
  destruct tg; [|constructor].
  case_bool_decide as Hmem; [constructor|].
  destruct (match pid_truthy (pid conn) with
            | Some p => get_process_name w p
            | None => Some "Unknown"
            end) as [name|]; [|constructor].
  eapply body_alert with (l := l); eauto; by rewrite ?Hex, ?Htg.
Qed.

Lemma for_connections_run os w self connections :
  let '(out, self', sig) := for_connections os w self connections in
  loop_run os w self connections out self' sig.
Proof.
  revert self. induction connections as [|conn rest IH]; intros self; simpl.
  - constructor.
  - pose proof (for_body_step os w self conn) as Hb.
    destruct (for_body os w self conn) as [[out1 self1] sig1].
    destruct sig1.
    + specialize (IH self1).
      destruct (for_connections os w self1 rest) as [[out2 self2] sig2].
      by eapply run_cons.
    + by eapply run_stop.
    + by eapply run_stop.
Qed.

Lemma alerts_app out1 out2 : alerts (out1 ++ out2) = alerts out1 ++ alerts out2.
Proof. apply omap_app. Qed.

Lemma alerts_send_notification os w title m :
  alerts (send_notification os w title m) = [].
Proof. unfold send_notification. by destruct (subprocess_run w _). Qed.

Lemma subject_send_notification os w title m o k :
  o ∈ send_notification os w title m → subject o = Some k → k = msg_target m.
Proof.
  unfold send_notification.
  destruct (negb _ && _); destruct (subprocess_run w _);
    rewrite ?elem_of_cons, ?elem_of_nil; intros H Hs;
    repeat destruct H as [H|H]; subst; simpl in *; try congruence; done.
Qed.

Lemma body_step_ranges os w self conn out self' sig :
  body_step os w self conn out self' sig →
  target_ranges self' = target_ranges self
  ∧ exclude_ranges self' = exclude_ranges self.
Proof. by destruct 1. Qed.

Lemma body_step_alerts os w self conn out self' sig :
  body_step os w self conn out self' sig →
  (alerts out = [] ∧ self' = self)
  ∨ (∃ r, alerts out = [r] ∧ sig = Normal
          ∧ raddr conn = Some r ∧ status conn = CONN_ESTABLISHED
          ∧ (conn_id r ∉ alerted_connections self)
          ∧ alerted_connections self' = {[conn_id r]} ∪ alerted_connections self).
Proof.
  destruct 1 as [| |r l a m Hst Hr Hl Hex Htg Hmem Ha Hm]; [by left|by left|].
  right. exists r. simpl. rewrite alerts_send_notification, Ha. done.
Qed.

Lemma body_step_subject os w self conn out self' sig o k :
  body_step os w self conn out self' sig →
  o ∈ out → subject o = Some k →
  fst (is_excluded_ip self (ip k)) = false ∧ fst (is_target_ip self (ip k)) = true.
Proof.
  destruct 1 as [| |r l a m Hst Hr Hl Hex Htg Hmem Ha Hm]; intros Ho Hs.
  - by apply elem_of_nil in Ho.
  - by apply elem_of_nil in Ho.
  - apply elem_of_cons in Ho as [->|Ho].
    + simpl in Hs. assert (k = r) as -> by congruence. done.
    + apply (subject_send_notification _ _ _ _ _ _ Ho) in Hs.
      rewrite Hs, Hm. by split.
Qed.

Lemma is_excluded_ip_ranges self self' ip_str :
  exclude_ranges self' = exclude_ranges self →
  is_excluded_ip self' ip_str = is_excluded_ip self ip_str.
Proof. unfold is_excluded_ip. by intros ->. Qed.

Lemma is_target_ip_ranges self self' ip_str :
  target_ranges self' = target_ranges self →
  is_target_ip self' ip_str = is_target_ip self ip_str.
Proof. unfold is_target_ip. by intros ->. Qed.

Lemma loop_run_ranges os w self connections out self' sig :
  loop_run os w self connections out self' sig →
  target_ranges self' = target_ranges self
  ∧ exclude_ranges self' = exclude_ranges self.
Proof.
  induction 1 as [|? ? ? ? ? ? Hb|? ? ? ? ? ? ? ? Hb _ [IH1 IH2]]; [done| |].
  - by apply body_step_ranges in Hb.
  - apply body_step_ranges in Hb as [? ?]. split; congruence.
Qed.

Lemma loop_run_subject os w self connections out self' sig o k :
  loop_run os w self connections out self' sig →
  o ∈ out → subject o = Some k →
  fst (is_excluded_ip self (ip k)) = false ∧ fst (is_target_ip self (ip k)) = true.
Proof.
  induction 1 as [|? ? ? ? ? ? Hb|? ? ? ? ? ? ? ? Hb _ IH]; intros Ho Hs.
  - by apply elem_of_nil in Ho.
  - eauto using body_step_subject.
  - apply elem_of_app in Ho as [Ho|Ho]; [eauto using body_step_subject|].
    apply body_step_ranges in Hb as [Ht He].
    rewrite <- (is_excluded_ip_ranges _ _ _ He), <- (is_target_ip_ranges _ _ _ Ht).
    auto.
Qed.

(** The memory after the loop is the memory before it and the keys of the
    alerts it fired; each of them was new, and none fired twice. *)
Lemma loop_run_alerts os w self connections out self' sig :
  loop_run os w self connections out self' sig →
  alerted_connections self'
    = alerted_connections self ∪ list_to_set (conn_id <$> alerts out)
  ∧ (∀ k, k ∈ alerts out → conn_id k ∉ alerted_connections self)
  ∧ (∀ k, k ∈ alerts out →
       ∃ conn, conn ∈ connections ∧ raddr conn = Some k
               ∧ status conn = CONN_ESTABLISHED)
  ∧ NoDup (conn_id <$> alerts out).
Proof.
  induction 1 as [|self conn rest out self' sig Hb Hsig
                  |self conn rest out1 self1 out2 self2 sig Hb _ (IHm & IHn & IHo & IHd)].
  - simpl. split_and!; [set_solver|set_solver|set_solver|constructor].
  - apply body_step_alerts in Hb as [[-> ->]|(r & _ & -> & _)]; [|done].
    simpl. split_and!; [set_solver|set_solver|set_solver|constructor].
  - rewrite alerts_app.
    apply body_step_alerts in Hb as [[-> ->]|(r & -> & _ & Hr & Hst & Hnew & Hmem)].
    + simpl. split_and!; [done|done| |done].
      intros k Hk. destruct (IHo k Hk) as (c & ? & ? & ?).
      exists c. split_and!; [by right|done|done].
    + simpl. rewrite Hmem in IHm. split_and!.
      * rewrite IHm. set_solver.
      * intros k [->|Hk]%elem_of_cons; [done|].
        specialize (IHn k Hk). rewrite Hmem in IHn. set_solver.
      * intros k [->|Hk]%elem_of_cons.
        -- exists conn. split_and!; [left|done|done].
        -- destruct (IHo k Hk) as (c & ? & ? & ?).
           exists c. split_and!; [by right|done|done].
      * constructor; [|done].
        intros (k & Heq & Hk)%list_elem_of_fmap.
        specialize (IHn k Hk). rewrite Hmem, <- Heq in IHn. set_solver.
Qed.

(** ** One cycle *)

Lemma elem_of_active_connections connections conn r :
  conn ∈ connections → raddr conn = Some r → status conn = CONN_ESTABLISHED →
  conn_id r ∈ active_connections connections.
Proof.
  intros Hin Hr Hst. unfold active_connections.
  apply elem_of_list_to_set, list_elem_of_omap.
  exists conn. split; [done|]. by rewrite Hr, Hst.
Qed.

Lemma cycle_facts os w self out self' sig :
  cycle os w self = (out, self', sig) →
  (target_ranges self' = target_ranges self
   ∧ exclude_ranges self' = exclude_ranges self)
  ∧ (∀ o k, o ∈ out → subject o = Some k →
       fst (is_excluded_ip self (ip k)) = false
       ∧ fst (is_target_ip self (ip k)) = true)
  ∧ (∀ k, k ∈ alerts out →
       (conn_id k ∉ alerted_connections self) ∧ observed k w
       ∧ conn_id k ∈ alerted_connections self')
  ∧ NoDup (conn_id <$> alerts out)
  ∧ (∀ k, sig = Normal → conn_id k ∈ alerted_connections self → observed k w →
       conn_id k ∈ alerted_connections self').
Proof.
  unfold cycle, observed.
  destruct (net_connections w) as [connections|].
  2:{ intros [= <- <- <-]. split; [done|]. split; [|split; [|split; [constructor|done]]].
      - intros o k Ho. by apply elem_of_nil in Ho.
      - intros k Hk. by apply elem_of_nil in Hk. }
  pose proof (for_connections_run os w self connections) as Hrun.
  destruct (for_connections os w self connections) as [[out1 self1] sig1].
  pose proof (loop_run_ranges _ _ _ _ _ _ _ Hrun) as Hranges.
  pose proof (λ o k, loop_run_subject _ _ _ _ _ _ _ o k Hrun) as Hsubject.
  pose proof (loop_run_alerts _ _ _ _ _ _ _ Hrun) as (Hmem & Hnew & Hobs & Hnodup).
  assert (∀ k, k ∈ alerts out1 → conn_id k ∈ active_connections connections) as Hact.
  { intros k (c & ? & ? & ?)%Hobs. eauto using elem_of_active_connections. }
  assert (∀ k, k ∈ alerts out1 → conn_id k ∈ alerted_connections self1) as Hin.
  { intros k Hk. rewrite Hmem. apply elem_of_union_r, elem_of_list_to_set.
    by apply list_elem_of_fmap_2. }
  destruct sig1; intros [= <- <- <-]; simpl; unfold reconcile;
    (split; [done|]); (split; [eauto|]); (split; [|split; [done|]]).
  - intros k Hk. split_and!; [eauto|eauto|]. apply elem_of_intersection; eauto.
  - intros k _ Hk Ho. apply elem_of_intersection. split; [|done].
    rewrite Hmem. by apply elem_of_union_l.
  - intros k Hk. split_and!; eauto.
  - done.
  - intros k Hk. split_and!; eauto.
  - done.
Qed.

(** ** The loop *)

Lemma monitor_connections_cons os self w rest :
  monitor_connections os self (w :: rest) =
    match cycle os w self with
    | (out, self', Normal) =>
        (out :: fst (monitor_connections os self' rest),
         snd (monitor_connections os self' rest))
    | (out, _, KbdInterrupt) => ([out ++ [PrintStopping]], None)
    | (out, _, Exc) => ([out ++ [PrintError]], None)
    end.
Proof.
  simpl. destruct (cycle os w self) as [[out self'] []]; try done.
  by destruct (monitor_connections os self' rest).
Qed.

Lemma alerts_snoc_log out o : subject o = None → alerts (out ++ [o]) = alerts out.
Proof.
  intros Ho. rewrite alerts_app. destruct o; simpl in *; try discriminate;
    by rewrite app_nil_r.
Qed.

(** The first output of the loop is the output of the first cycle, up to
    the closing line of an [except] clause; and a second output exists only
    if the first cycle ended normally. *)
Lemma monitor_connections_head os self w rest out self' sig :
  cycle os w self = (out, self', sig) →
  ∃ out0, fst (monitor_connections os self (w :: rest)) !! 0%nat = Some out0
          ∧ alerts out0 = alerts out
          ∧ (∀ j, fst (monitor_connections os self (w :: rest)) !! S j
                  = if sig is Normal
                    then fst (monitor_connections os self' rest) !! j
                    else None).
Proof.
  intros Hc. rewrite monitor_connections_cons, Hc.
  destruct sig; simpl.
  - by exists out.
  - exists (out ++ [PrintError]). by rewrite alerts_snoc_log.
  - exists (out ++ [PrintStopping]). by rewrite alerts_snoc_log.
Qed.

(** While a key is in the memory, an alert for it needs an earlier cycle
    that did not observe it. *)
Lemma alerted_key_suppressed os worlds : ∀ self j out_j k,
  conn_id k ∈ alerted_connections self →
  fst (monitor_connections os self worlds) !! j = Some out_j →
  k ∈ alerts out_j →
  ∃ c w, (c < j)%nat ∧ worlds !! c = Some w ∧ ¬ observed k w.
Proof.
  induction worlds as [|w rest IH]; intros self j out_j k Hmem Hj Hk.
  - simpl in Hj. by rewrite lookup_nil in Hj.
  - destruct (cycle os w self) as [[out self'] sig] eqn:Hc.
    destruct (monitor_connections_head os self w rest _ _ _ Hc)
      as (out0 & H0 & Ha & HS).
    apply cycle_facts in Hc as (_ & _ & Hnew & _ & Hkeep).
    destruct j as [|j].
    + rewrite H0 in Hj. injection Hj as <-. rewrite Ha in Hk.
      by destruct (Hnew k Hk) as [? _].
    + rewrite HS in Hj. destruct sig; try discriminate.
      destruct (decide (observed k w)) as [Ho|Ho].
      * destruct (IH self' j out_j k (Hkeep k eq_refl Hmem Ho) Hj Hk)
          as (c & w' & ? & ? & ?).
        exists (S c), w'. split_and!; [lia|done|done].
      * exists 0%nat, w. split_and!; [lia|done|done].
Qed.

Lemma monitor_connections_subject os worlds : ∀ self out o k,
  out ∈ fst (monitor_connections os self worlds) → o ∈ out → subject o = Some k →
  fst (is_excluded_ip self (ip k)) = false ∧ fst (is_target_ip self (ip k)) = true.
Proof.
  induction worlds as [|w rest IH]; intros self out o k Hout Ho Hs.
  - by apply elem_of_nil in Hout.
  - rewrite monitor_connections_cons in Hout.
    destruct (cycle os w self) as [[out0 self'] sig] eqn:Hc.
    apply cycle_facts in Hc as ([Ht He] & Hsub & _).
    assert (∀ l, out = out0 ++ [l] → subject l = None →
                 (is_excluded_ip self (ip k)).1 = false
                 ∧ (is_target_ip self (ip k)).1 = true) as Hlast.
    { intros l -> Hl. apply elem_of_app in Ho as [Ho|Ho]; [eauto|].
      apply list_elem_of_singleton in Ho as ->. congruence. }
    destruct sig; simpl in Hout.
    + apply elem_of_cons in Hout as [->|Hout]; [eauto|].
      rewrite <- (is_excluded_ip_ranges _ _ _ He), <- (is_target_ip_ranges _ _ _ Ht).
      eauto.
    + apply list_elem_of_singleton in Hout. eauto.
    + apply list_elem_of_singleton in Hout. eauto.
Qed.

(** ** Keys and endpoints *)

Lemma contains_app_sep sep a b : Str.contains sep (a +:+ String sep b) = true.
Proof.
  induction a as [|c a IH]; simpl.
  - by rewrite Ascii.eqb_refl.
  - by destruct (Ascii.eqb c sep).
Qed.

Lemma pretty_N_go_no_colon x : ∀ s,
  Str.contains ":" s = false → Str.contains ":" (pretty_N_go x s) = false.
Proof.
  induction (N.lt_wf_0 x) as [x _ IH]; intros s Hs.
  assert (x = 0 ∨ 0 < x)%N as [->|Hx] by lia.
  - by rewrite pretty_N_go_0.
  - rewrite pretty_N_go_step by done. apply IH; [by apply N.div_lt|].
    simpl. rewrite Hs. unfold pretty_N_char. by repeat case_match.
Qed.

Lemma pretty_N_no_colon (n : N) : Str.contains ":" (pretty n) = false.
Proof.
  unfold pretty, pretty_N. case_decide; [done|].
  by apply pretty_N_go_no_colon.
Qed.

Lemma append_sep_inj sep a1 a2 d1 d2 :
  Str.contains sep d1 = false → Str.contains sep d2 = false →
  a1 +:+ String sep d1 = a2 +:+ String sep d2 → a1 = a2 ∧ d1 = d2.
Proof.
  intros H1 H2. revert a2.
  induction a1 as [|c1 a1 IH]; intros [|c2 a2]; simpl; intros Heq.
  - by injection Heq as ->.
  - injection Heq as <- ->. by rewrite contains_app_sep in H1.
  - injection Heq as -> <-. by rewrite contains_app_sep in H2.
  - injection Heq as -> Heq. by destruct (IH _ Heq) as [-> ->].
Qed.

(** The key identifies the endpoint: the text after the last colon is the
    port, whatever colons the address has. *)
Lemma conn_id_inj k1 k2 : conn_id k1 = conn_id k2 → k1 = k2.
Proof.
  destruct k1 as [ip1 p1], k2 as [ip2 p2]. unfold conn_id. simpl.
  intros [-> Hp]%append_sep_inj; auto using pretty_N_no_colon.
  by apply (inj pretty) in Hp as ->.
Qed.

(** The observed set holds the key of an endpoint exactly when the sample
    has an established connection to that endpoint. *)
Lemma observed_iff k w :
  observed k w ↔
  ∃ connections conn, net_connections w = Sampled connections
    ∧ conn ∈ connections ∧ raddr conn = Some k ∧ status conn = CONN_ESTABLISHED.
Proof.
  unfold observed. destruct (net_connections w) as [connections|]; split.
  - unfold active_connections.
    intros (conn & Hin & Hc)%elem_of_list_to_set%list_elem_of_omap.
    exists connections, conn.
    destruct (raddr conn) as [r|] eqn:Hr; [|done].
    destruct (status conn) eqn:Hst; try done.
    injection Hc as Hc%conn_id_inj. by subst.
  - intros (? & conn & [= <-] & ? & ? & ?). eauto using elem_of_active_connections.
  - done.
  - by intros (? & ? & ? & _).
Qed.

(** ** Alerts and notifications *)

Lemma notifications_app out1 out2 :
  notifications (out1 ++ out2) = notifications out1 ++ notifications out2.
Proof. apply omap_app. Qed.

Lemma notifications_send_notification os w title m :
  notifications (send_notification os w title m) = [msg_target m].
Proof.
  unfold send_notification.
  by destruct (negb _ && _), (subprocess_run w _).
Qed.

Lemma body_step_notifications os w self conn out self' sig :
  body_step os w self conn out self' sig → notifications out = alerts out.
Proof.
  destruct 1 as [| |r l a m Hst Hr Hl Hex Htg Hmem Ha Hm]; [done|done|].
  cbn [notifications alerts omap list_omap].
  fold (notifications (send_notification os w "Bepa Alert" m)).
  fold (alerts (send_notification os w "Bepa Alert" m)).
  by rewrite notifications_send_notification, alerts_send_notification, Ha, Hm.
Qed.

Lemma loop_run_notifications os w self connections out self' sig :
  loop_run os w self connections out self' sig → notifications out = alerts out.
Proof.
  induction 1 as [|? ? ? ? ? ? Hb|? ? ? ? ? ? ? ? Hb _ IH]; [done| |].
  - by eapply body_step_notifications.
  - rewrite notifications_app, alerts_app, IH.
    by rewrite (body_step_notifications _ _ _ _ _ _ _ Hb).
Qed.

Lemma cycle_notifications os w self out self' sig :
  cycle os w self = (out, self', sig) → notifications out = alerts out.
Proof.
  unfold cycle. destruct (net_connections w) as [connections|]; [|by intros [= <- _ _]].
  pose proof (for_connections_run os w self connections) as Hrun.
  destruct (for_connections os w self connections) as [[out1 self1] sig1].
  apply loop_run_notifications in Hrun.
  by destruct sig1; intros [= <- _ _].
Qed.

Lemma monitor_connections_notifications os worlds : ∀ self i out,
  fst (monitor_connections os self worlds) !! i = Some out →
  notifications out = alerts out.
Proof.
  induction worlds as [|w rest IH]; intros self i out Hi.
  - simpl in Hi. by rewrite lookup_nil in Hi.
  - rewrite monitor_connections_cons in Hi.
    destruct (cycle os w self) as [[out0 self1] sig] eqn:Hc.
    apply cycle_notifications in Hc.
    destruct sig; simpl in Hi.
    + destruct i as [|i]; [by injection Hi as <-|]. eauto.
    + destruct i as [|i]; [|done]. injection Hi as <-.
      rewrite notifications_app, alerts_app, Hc. done.
    + destruct i as [|i]; [|done]. injection Hi as <-.
      rewrite notifications_app, alerts_app, Hc. done.
Qed.

(** ** Exclusion and targeting *)

(** C1.  An address that is a member of an exclude range is classified
    [Excluded], never [Targeted], whatever the target ranges are; and no run
    of the monitoring loop prints an alert or sends a notification about a
    connection to it. *)
Theorem exclusion_dominates_targeting os self ip_str :
  member (exclude_ranges self) ip_str →
  classify self ip_str = Excluded
  ∧ (∀ matched, classify self ip_str ≠ Targeted matched)
  ∧ (∀ worlds out o k,
       out ∈ fst (monitor_connections os self worlds) → o ∈ out →
       subject o = Some k → ip k ≠ ip_str).
Proof.
  intros Hex%is_excluded_ip_member.
  assert (classify self ip_str = Excluded) as Hc.
  { unfold classify. by rewrite Hex. }
  split_and!; [done|by rewrite Hc|].
  intros worlds out o k Hout Ho Hs Hip.
  destruct (monitor_connections_subject _ _ _ _ _ _ Hout Ho Hs) as [Hn _].
  rewrite Hip in Hn. congruence.
Qed.

(** C10.  On a string that [ip_address] refuses, both membership tests
    return [(False, None)]; a connection to it is [Ignored], and the loop
    body leaves the monitor as it was, prints nothing and raises nothing, so
    that the loop goes on with the next connection. *)
Theorem unparsable_address_is_ignored self ip_str :
  (∃ e, ipaddress.ip_address ip_str = Raise e) →
  is_target_ip self ip_str = (false, None)
  ∧ is_excluded_ip self ip_str = (false, None)
  ∧ classify self ip_str = Ignored
  ∧ (∀ os w conn r rest,
       raddr conn = Some r → ip r = ip_str →
       for_body os w self conn = ([], self, Normal)
       ∧ for_connections os w self (conn :: rest) = for_connections os w self rest).
Proof.
  intros [e He].
  assert (is_target_ip self ip_str = (false, None)) as Ht
    by (unfold is_target_ip; by rewrite He).
  assert (is_excluded_ip self ip_str = (false, None)) as Hx
    by (unfold is_excluded_ip; by rewrite He).
  split_and!; [done|done|unfold classify; by rewrite Hx, Ht|].
  intros os w conn r rest Hr Hip.
  assert (for_body os w self conn = ([], self, Normal)) as Hb.
  { unfold for_body. rewrite Hr, Hip, Hx, Ht.
    by destruct (status conn), (laddr conn). }
  split; [done|]. simpl. rewrite Hb.
  by destruct (for_connections os w self rest) as [[? ?] ?].
Qed.

(** ** Reconciliation *)

(** C3.  When the [for] loop of a cycle has run to its end, the cycle
    leaves in the memory exactly the keys it held at that point (those it
    had at the start of the cycle and those of the alerts just fired) that
    are also keys of an established connection of the sample.  The keys of
    the sample are those of its connections that are established and have
    a remote address, whatever their classification, and no others; as the
    key identifies the endpoint, an endpoint stays in the memory exactly
    when it was there and the sample has an established connection to it,
    and an endpoint with no such connection is gone. *)
Theorem end_of_cycle_reconciliation os w self connections out self1 :
  net_connections w = Sampled connections →
  for_connections os w self connections = (out, self1, Normal) →
  alerted_connections (snd (fst (cycle os w self)))
    = alerted_connections self1 ∩ active_connections connections
  ∧ alerted_connections self1
    = alerted_connections self ∪ list_to_set (conn_id <$> alerts out)
  ∧ (∀ conn r, conn ∈ connections → raddr conn = Some r →
       status conn = CONN_ESTABLISHED →
       conn_id r ∈ active_connections connections)
  ∧ (∀ key, key ∉ active_connections connections →
       key ∉ alerted_connections (snd (fst (cycle os w self))))
  ∧ (∀ key, key ∈ active_connections connections ↔
       ∃ conn r, conn ∈ connections ∧ raddr conn = Some r
                 ∧ status conn = CONN_ESTABLISHED ∧ key = conn_id r)
  ∧ (∀ k, conn_id k ∈ alerted_connections (snd (fst (cycle os w self))) ↔
       conn_id k ∈ alerted_connections self1
       ∧ ∃ conn, conn ∈ connections ∧ raddr conn = Some k
                 ∧ status conn = CONN_ESTABLISHED)
  ∧ (∀ k, (¬ ∃ conn, conn ∈ connections ∧ raddr conn = Some k
                     ∧ status conn = CONN_ESTABLISHED) →
       conn_id k ∉ alerted_connections (snd (fst (cycle os w self)))).
Proof.
  intros Hw Hfor. pose proof (for_connections_run os w self connections) as Hrun.
  rewrite Hfor in Hrun. apply loop_run_alerts in Hrun as (Hmem & _).
  assert (∀ key, key ∈ active_connections connections ↔
            ∃ conn r, conn ∈ connections ∧ raddr conn = Some r
                      ∧ status conn = CONN_ESTABLISHED ∧ key = conn_id r) as Hkeys.
  { intros key. unfold active_connections.
    rewrite elem_of_list_to_set, list_elem_of_omap. split.
    - intros (conn & Hin & Hc). destruct (raddr conn) as [r|] eqn:Hr; [|done].
      destruct (status conn) eqn:Hst; try done. injection Hc as <-.
      by exists conn, r.
    - intros (conn & r & Hin & Hr & Hst & ->). exists conn. by rewrite Hr, Hst. }
  assert (∀ k, conn_id k ∈ active_connections connections ↔
            ∃ conn, conn ∈ connections ∧ raddr conn = Some k
                    ∧ status conn = CONN_ESTABLISHED) as Hendpoint.
  { intros k. rewrite Hkeys. split.
    - intros (conn & r & Hin & Hr & Hst & Heq%conn_id_inj). subst r. by exists conn.
    - intros (conn & Hin & Hr & Hst). by exists conn, k. }
  unfold cycle. rewrite Hw, Hfor. simpl. unfold reconcile.
  split; [done|]. split; [done|].
  split; [eauto using elem_of_active_connections|].
  split; [set_solver|]. split; [done|]. split.
  - intros k. by rewrite elem_of_intersection, Hendpoint.
  - intros k Hnone [_ Hact%Hendpoint]%elem_of_intersection. by apply Hnone.
Qed.

(** C9.  Reconciling twice against the same observed set gives the memory
    that reconciling once gives. *)
Theorem reconcile_idempotent (alerted active : gset string) :
  reconcile (reconcile alerted active) active = reconcile alerted active.
Proof. unfold reconcile. set_solver. Qed.

(** ** Alert de-duplication *)

(** C2.  In any run of the loop, a cycle alerts an endpoint at most once;
    and when two cycles alert the same endpoint, some cycle strictly
    between them did not observe it.  So no second alert fires while the
    endpoint stays in the observed set.  An alert is the alert lines
    printed and the notification sent: in every cycle the endpoints
    notified are the endpoints of the alert lines, one for one and in the
    same order, so that no notification is sent either. *)
Theorem no_repeated_alert_while_present os worlds self k :
  (∀ i out, fst (monitor_connections os self worlds) !! i = Some out →
     NoDup (alerts out))
  ∧ (∀ i j out_i out_j,
       (i < j)%nat →
       fst (monitor_connections os self worlds) !! i = Some out_i →
       fst (monitor_connections os self worlds) !! j = Some out_j →
       k ∈ alerts out_i → k ∈ alerts out_j →
       ∃ c w, (i < c < j)%nat ∧ worlds !! c = Some w ∧ ¬ observed k w)
  ∧ (∀ i j out_i out_j,
       (i < j)%nat →
       fst (monitor_connections os self worlds) !! i = Some out_i →
       fst (monitor_connections os self worlds) !! j = Some out_j →
       k ∈ alerts out_i →
       (∀ c w, (i < c < j)%nat → worlds !! c = Some w → observed k w) →
       k ∉ alerts out_j)
  ∧ (∀ i out, fst (monitor_connections os self worlds) !! i = Some out →
       notifications out = alerts out).
Proof.
  assert (∀ i j out_i out_j,
       (i < j)%nat →
       fst (monitor_connections os self worlds) !! i = Some out_i →
       fst (monitor_connections os self worlds) !! j = Some out_j →
       k ∈ alerts out_i → k ∈ alerts out_j →
       ∃ c w, (i < c < j)%nat ∧ worlds !! c = Some w ∧ ¬ observed k w) as Hgap.
  { revert self. induction worlds as [|w rest IH]; intros self i j out_i out_j Hij Hi Hj Hki Hkj.
    { simpl in Hi. by rewrite lookup_nil in Hi. }
    destruct (cycle os w self) as [[out self'] sig] eqn:Hc.
    destruct (monitor_connections_head os self w rest _ _ _ Hc)
      as (out0 & H0 & Ha & HS).
    apply cycle_facts in Hc as (_ & _ & Hnew & _).
    destruct j as [|j]; [lia|]. rewrite HS in Hj.
    destruct sig; try discriminate.
    destruct i as [|i].
    - rewrite H0 in Hi. injection Hi as <-. rewrite Ha in Hki.
      destruct (Hnew k Hki) as (_ & _ & Hmem).
      destruct (alerted_key_suppressed os rest self' j out_j k Hmem Hj Hkj)
        as (c & w' & ? & ? & ?).
      exists (S c), w'. split_and!; [lia|lia|done|done].
    - rewrite HS in Hi.
      destruct (IH self' i j out_i out_j) as (c & w' & ? & ? & ?); [lia|done..|].
      exists (S c), w'. split_and!; [lia|lia|done|done]. }
  split_and!; [|done| |by eauto using monitor_connections_notifications].
  - clear Hgap. revert self. induction worlds as [|w rest IH]; intros self i out Hi.
    { simpl in Hi. by rewrite lookup_nil in Hi. }
    destruct (cycle os w self) as [[out0 self'] sig] eqn:Hc.
    destruct (monitor_connections_head os self w rest _ _ _ Hc)
      as (out1 & H0 & Ha & HS).
    apply cycle_facts in Hc as (_ & _ & _ & Hnd & _).
    destruct i as [|i].
    + rewrite H0 in Hi. injection Hi as <-. rewrite Ha.
      by apply NoDup_fmap_1 in Hnd.
    + rewrite HS in Hi. destruct sig; try discriminate. eauto.
  - intros i j out_i out_j Hij Hi Hj Hki Hall Hkj.
    destruct (Hgap i j out_i out_j Hij Hi Hj Hki Hkj) as (c & w & Hc & Hw & Hn).
    eauto.
Qed.

(** ** Failures of the collaborators *)

(** C7, as the code has it.  Whatever becomes of the command that
    delivers the notification, the loop body ends normally with the alert
    printed and the key of the endpoint in the memory, the [for] loop goes
    on with the connections that follow, and another connection to the same
    endpoint gives no second alert.  The failure is printed when the
    command raises, and only then: a command that runs and exits with any
    status, 0 or not, leaves no line. *)
Theorem notification_failure_is_not_fatal os w self conn r l name rest :
  status conn = CONN_ESTABLISHED → raddr conn = Some r → laddr conn = Some l →
  fst (is_excluded_ip self (ip r)) = false →
  fst (is_target_ip self (ip r)) = true →
  conn_id r ∉ alerted_connections self →
  match pid_truthy (pid conn) with
  | Some p => get_process_name w p
  | None => Some "Unknown"
  end = Some name →
  ∃ a cmd self',
    for_body os w self conn
    = (PrintAlert a :: Run cmd ::
         match subprocess_run w cmd with
         | RunRaises => [PrintNotifyFailed]
         | Completed _ => []
         end,
       self', Normal)
    ∧ alert_remote a = r
    ∧ alerted_connections self' = {[conn_id r]} ∪ alerted_connections self
    ∧ for_connections os w self (conn :: rest)
      = (fst (fst (for_body os w self conn))
           ++ fst (fst (for_connections os w self' rest)),
         snd (fst (for_connections os w self' rest)),
         snd (for_connections os w self' rest))
    ∧ (∀ conn', raddr conn' = Some r →
         for_body os w self' conn' = ([], self', Normal)).
Proof.
  intros Hst Hr Hl Hex Htg Hnew Hname.
  destruct (is_excluded_ip self (ip r)) as [ex exr] eqn:Hex'.
  destruct (is_target_ip self (ip r)) as [tg tgr] eqn:Htg'.
  simpl in Hex, Htg. subst ex tg.
  set (m := {| msg_target := r; msg_process := name; msg_range := tgr |}).
  set (user := default (getenv os "USER" "root") (environ os !! "SUDO_USER")).
  set (cmd := if negb (String.eqb user "root") && (geteuid os =? 0)%N
              then SudoNotifySend user "Bepa Alert" m
              else NotifySend "Bepa Alert" m).
  set (self' := set_alerted self ({[conn_id r]} ∪ alerted_connections self)).
  set (a := {| alert_remote := r; alert_local_port := port l;
               alert_matched_range := tgr;
               alert_process_name := name; alert_pid := pid conn |}).
  assert (for_body os w self conn
          = (PrintAlert a :: Run cmd ::
               match subprocess_run w cmd with
               | RunRaises => [PrintNotifyFailed]
               | Completed _ => []
               end, self', Normal)) as Hb.
  { unfold for_body. rewrite Hst, Hr, Hl, Hex', Htg', Hname.
    rewrite bool_decide_eq_false_2 by done.
    unfold send_notification. fold user. fold m. fold cmd.
    by destruct (subprocess_run w cmd). }
  exists a, cmd, self'. split_and!; [exact Hb|done|done| |].
  - cbn [for_connections]. rewrite Hb.
    by destruct (for_connections os w self' rest) as [[? ?] ?].
  - intros conn' Hr'. unfold for_body. rewrite Hr'.
    assert (is_excluded_ip self' (ip r) = (false, exr)) as -> by done.
    assert (is_target_ip self' (ip r) = (true, tgr)) as -> by done.
    rewrite bool_decide_eq_true_2 by (subst self'; simpl; set_solver).
    by destruct (status conn'), (laddr conn').
Qed.

(** C4, as the code has it.  When [psutil.net_connections] raises, the
    cycle does nothing else, the [except Exception] clause around the loop
    prints the error, and [monitor_connections] returns: no later cycle
    runs, whatever the host would have supplied. *)
Theorem sampling_failure_ends_loop os self w rest :
  net_connections w = SampleRaises →
  cycle os w self = ([], self, Exc)
  ∧ monitor_connections os self (w :: rest) = ([[PrintError]], None).
Proof.
  intros Hw. assert (cycle os w self = ([], self, Exc)) as Hc.
  { unfold cycle. by rewrite Hw. }
  split; [done|]. by rewrite monitor_connections_cons, Hc.
Qed.

(** ** Start-up *)

(** The parsing loop reads each entry on its own: the ranges are those of
    the entries that parse, in order, after the ranges already there, and
    the warnings are those of the entries that do not. *)
Lemma parse_ranges_entries warn entries : ∀ ranges,
  parse_ranges warn entries ranges
  = (ranges ++ omap entry_network entries, omap (entry_warning warn) entries).
Proof.
  induction entries as [|e rest IH]; intros ranges; simpl.
  - by rewrite app_nil_r.
  - unfold entry_network, entry_warning.
    destruct (Str.truthy (Str.strip e)); [|apply IH].
    destruct (ipaddress.ip_network (Str.strip e)) as [net|err].
    + rewrite IH. by rewrite <- app_assoc.
    + by rewrite IH.
Qed.


(** C6.  When no entry of the target list parses, [main] exits with code 1
    before the monitoring loop is entered. *)
Theorem empty_target_ranges_exit os which worlds :
  fst (parse_ranges WarnInvalidRange
         (Str.split "," (getenv os "TARGET_IP_RANGES" default_TARGET_IP_RANGES)) [])
  = [] →
  started (main os which worlds) = false
  ∧ trace (main os which worlds) = []
  ∧ state (main os which worlds) = Exited 1
  ∧ (∃ out, __init__ os = (out, inr 1%N) ∧ WarnNoValidRanges ∈ out).
Proof.
  intros Hempty.
  assert (∃ out, __init__ os = (out, inr 1%N) ∧ WarnNoValidRanges ∈ out) as (out & Hinit & Hout).
  { unfold __init__.
    destruct (parse_ranges WarnInvalidRange _ []) as [ranges out1].
    simpl in Hempty. subst ranges.
    eexists. split; [done|]. apply elem_of_app. right. left. }
  unfold main. rewrite Hinit. destruct which; split_and!; eauto.
Qed.

Lemma exclusion_dominates_targeting_witness :
  member (exclude_ranges scenario_monitor) "10.0.0.1"
  ∧ member (target_ranges scenario_monitor) "10.0.0.1"
  ∧ classify scenario_monitor "10.0.0.1" = Excluded
  ∧ (∀ out o k,
       out ∈ fst (monitor_connections unconfigured_os scenario_monitor
                    [sound_world [established gateway; established web]]) →
       o ∈ out → subject o = Some k → ip k ≠ "10.0.0.1").
Proof.
  assert (member (exclude_ranges scenario_monitor) "10.0.0.1") as Hex.
  { exists (IPv4Addr 167772161), (IPv4Net 167772161 32).
    split; [vm_compute; reflexivity|]. split; [left|vm_compute; reflexivity]. }
  split; [exact Hex|]. split.
  { exists (IPv4Addr 167772161), (IPv4Net 167772160 8).
    split; [vm_compute; reflexivity|]. split; [left|vm_compute; reflexivity]. }
  destruct (exclusion_dominates_targeting unconfigured_os scenario_monitor
              "10.0.0.1" Hex) as (Hc & _ & Hno).
  split; [exact Hc|]. intros out o k. apply Hno.
Defined.

Lemma unparsable_address_is_ignored_witness :
  ipaddress.ip_address "not-an-address" = Raise ValueError
  ∧ is_target_ip scenario_monitor "not-an-address" = (false, None)
  ∧ is_excluded_ip scenario_monitor "not-an-address" = (false, None)
  ∧ classify scenario_monitor "not-an-address" = Ignored.
Proof.
  assert (ipaddress.ip_address "not-an-address" = Raise ValueError) as He
    by (vm_compute; reflexivity).
  split; [exact He|].
  destruct (unparsable_address_is_ignored scenario_monitor "not-an-address"
              (ex_intro _ ValueError He)) as (Ht & Hx & Hc & _).
  split; [exact Ht|]. split; [exact Hx|exact Hc].
Defined.

(** The memory holds the key of [db]; the sample has an established
    connection to [web] and one to [db] that is closing down. *)
Lemma end_of_cycle_reconciliation_witness :
  for_connections unconfigured_os (sound_world [established web; lingering db])
    (set_alerted scenario_monitor {[ conn_id db ]})
    [established web; lingering db]
  = ([PrintAlert {| alert_remote := web; alert_local_port := 50000;
                    alert_matched_range := Some (IPv4Net 167772160 8);
                    alert_process_name := "curl"; alert_pid := Some 4242%N |};
      Run (NotifySend "Bepa Alert"
             {| msg_target := web; msg_process := "curl";
                msg_range := Some (IPv4Net 167772160 8) |})],
     set_alerted scenario_monitor ({[ conn_id web ]} ∪ {[ conn_id db ]}), Normal)
  ∧ conn_id web
    ∈ alerted_connections
        (snd (fst (cycle unconfigured_os
                     (sound_world [established web; lingering db])
                     (set_alerted scenario_monitor {[ conn_id db ]}))))
  ∧ conn_id db
    ∉ alerted_connections
        (snd (fst (cycle unconfigured_os
                     (sound_world [established web; lingering db])
                     (set_alerted scenario_monitor {[ conn_id db ]})))).
Proof.
  assert (for_connections unconfigured_os
            (sound_world [established web; lingering db])
            (set_alerted scenario_monitor {[ conn_id db ]})
            [established web; lingering db]
          = ([PrintAlert {| alert_remote := web; alert_local_port := 50000;
                            alert_matched_range := Some (IPv4Net 167772160 8);
                            alert_process_name := "curl";
                            alert_pid := Some 4242%N |};
              Run (NotifySend "Bepa Alert"
                     {| msg_target := web; msg_process := "curl";
                        msg_range := Some (IPv4Net 167772160 8) |})],
             set_alerted scenario_monitor ({[ conn_id web ]} ∪ {[ conn_id db ]}),
             Normal)) as Hfor
    by (vm_compute; reflexivity).
  split; [exact Hfor|].
  destruct (end_of_cycle_reconciliation unconfigured_os
              (sound_world [established web; lingering db])
              (set_alerted scenario_monitor {[ conn_id db ]})
              [established web; lingering db] _ _ eq_refl Hfor)
    as (_ & _ & _ & _ & _ & Hkept & Hgone).
  split.
  - apply Hkept. split; [simpl; set_solver|].
    exists (established web). split; [left|]. by split.
  - apply Hgone. intros (conn & Hin & Hr & Hst).
    apply elem_of_cons in Hin as [->|Hin]; [discriminate Hr|].
    apply list_elem_of_singleton in Hin as ->. discriminate Hst.
Defined.

Lemma no_repeated_alert_while_present_witness :
  (∃ c w, (0 < c < 2)%nat ∧ flapping_worlds !! c = Some w ∧ ¬ observed web w)
  ∧ (∀ i out,
       fst (monitor_connections unconfigured_os scenario_monitor flapping_worlds)
         !! i = Some out →
       notifications out = alerts out)
  ∧ map notifications
      (fst (monitor_connections unconfigured_os scenario_monitor flapping_worlds))
    = [[web]; []; [web]].
Proof.
  destruct (no_repeated_alert_while_present unconfigured_os flapping_worlds
              scenario_monitor web) as (_ & Hgap & _ & Hnotified).
  split; [|split; [exact Hnotified|vm_compute; reflexivity]].
  eapply (Hgap 0%nat 2%nat).
  - lia.
  - vm_compute; reflexivity.
  - vm_compute; reflexivity.
  - vm_compute. left.
  - vm_compute. left.
Defined.

Lemma notification_failure_is_not_fatal_witness :
  (∃ a cmd self',
     for_body unconfigured_os (no_sink_world [established web]) scenario_monitor
       (established web)
     = ([PrintAlert a; Run cmd; PrintNotifyFailed], self', Normal)
     ∧ alert_remote a = web
     ∧ alerted_connections self' = {[conn_id web]} ∪ ∅
     ∧ (∀ conn', raddr conn' = Some web →
          for_body unconfigured_os (no_sink_world [established web]) self' conn'
          = ([], self', Normal)))
  ∧ (∃ a cmd self',
       for_body unconfigured_os (failed_sink_world [established web])
         scenario_monitor (established web)
       = ([PrintAlert a; Run cmd], self', Normal)
       ∧ alert_remote a = web
       ∧ alerted_connections self' = {[conn_id web]} ∪ ∅).
Proof.
  split.
  - destruct (notification_failure_is_not_fatal unconfigured_os
                (no_sink_world [established web]) scenario_monitor
                (established web) web {| ip := "10.0.0.9"; port := 50000 |}
                "curl" [])
      as (a & cmd & self' & Hb & Ha & Hm & _ & Hdup).
    + reflexivity.
    + reflexivity.
    + reflexivity.
    + vm_compute; reflexivity.
    + vm_compute; reflexivity.
    + simpl. set_solver.
    + reflexivity.
    + exists a, cmd, self'. split; [exact Hb|]. split; [exact Ha|].
      split; [exact Hm|exact Hdup].
  - destruct (notification_failure_is_not_fatal unconfigured_os
                (failed_sink_world [established web]) scenario_monitor
                (established web) web {| ip := "10.0.0.9"; port := 50000 |}
                "curl" [])
      as (a & cmd & self' & Hb & Ha & Hm & _).
    + reflexivity.
    + reflexivity.
    + reflexivity.
    + vm_compute; reflexivity.
    + vm_compute; reflexivity.
    + simpl. set_solver.
    + reflexivity.
    + exists a, cmd, self'. split; [exact Hb|]. split; [exact Ha|exact Hm].
Defined.

(** A [notify-send] that exits with status 1 has failed, and nothing is
    printed about it. *)
Lemma silent_sink_failure_counterexample :
  ¬ sink_failure_is_logged unconfigured_os (failed_sink_world [established web])
      scenario_monitor (established web).
Proof.
  unfold sink_failure_is_logged. intros H.
  pose proof (H _ _ _ _ _ ltac:(vm_compute; reflexivity)) as Hlogged.
  assert (PrintNotifyFailed ∈ @nil output) as Hin
    by (apply Hlogged; simpl; discriminate).
  by apply elem_of_nil in Hin.
Qed.

Lemma sampling_failure_ends_loop_witness :
  net_connections no_sample_world = SampleRaises
  ∧ monitor_connections unconfigured_os scenario_monitor
      [no_sample_world; sound_world [established web]]
    = ([[PrintError]], None).
Proof.
  split; [reflexivity|].
  apply (sampling_failure_ends_loop unconfigured_os scenario_monitor
           no_sample_world [sound_world [established web]]).
  reflexivity.
Defined.

(** The loop does not go on after a cycle whose sampling raised: the cycle
    that follows, in which a targeted endpoint is established, never runs. *)
Lemma sampling_failure_ends_loop_counterexample :
  ¬ loop_survives_sampling_failure unconfigured_os scenario_monitor
      no_sample_world [sound_world [established web]].
Proof.
  unfold loop_survives_sampling_failure. intros H.
  specialize (H eq_refl ltac:(discriminate)). vm_compute in H. lia.
Qed.

Lemma empty_target_ranges_exit_witness :
  started (main misconfigured_os WhichFound flapping_worlds) = false
  ∧ trace (main misconfigured_os WhichFound flapping_worlds) = []
  ∧ state (main misconfigured_os WhichFound flapping_worlds) = Exited 1.
Proof.
  destruct (empty_target_ranges_exit misconfigured_os WhichFound flapping_worlds)
    as (H1 & H2 & H3 & _).
  - vm_compute; reflexivity.
  - split; [exact H1|]. split; [exact H2|exact H3].
Defined.


(** C5, on the code.  With [TARGET_IP_RANGES] unset, the first entry of
    the default list, [10.10.0.0/8], has host bits set and [ip_network]
    raises [ValueError] on it: the entry is skipped with a warning, the
    target ranges are [172.16.0.0/12] and [192.168.0.0/16] only, and the
    addresses of [10.0.0.0/8] are not targets. *)
Theorem default_target_ranges_skip_first_entry :
  ipaddress.ip_network "10.10.0.0/8" = Raise ValueError
  ∧ parse_ranges WarnInvalidRange (Str.split "," default_TARGET_IP_RANGES) []
    = ([IPv4Net 2886729728 12; IPv4Net 3232235520 16],
       [WarnInvalidRange "10.10.0.0/8"])
  ∧ ∃ out self,
      __init__ unconfigured_os = (out, inl self)
      ∧ is_target_ip self "10.0.0.1" = (false, None)
      ∧ is_target_ip self "10.10.0.5" = (false, None)
      ∧ is_target_ip self "172.16.0.1" = (true, Some (IPv4Net 2886729728 12))
      ∧ is_target_ip self "192.168.1.5" = (true, Some (IPv4Net 3232235520 16)).
Proof.
  split; [vm_compute; reflexivity|]. split; [vm_compute; reflexivity|].
  eexists _, _. split; [vm_compute; reflexivity|].
  repeat split; vm_compute; reflexivity.
Qed.

(** * Further properties of the code *)

(** ** The membership tests *)

Lemma first_match_spec a ranges r :
  first_match a ranges = (true, Some r) ↔
  ∃ before after, ranges = before ++ r :: after
    ∧ ipaddress.contains r a = true
    ∧ Forall (fun r' => ipaddress.contains r' a = false) before.
Proof.
  induction ranges as [|x rest IH]; simpl.
  - split; [discriminate|]. intros (before & after & Heq & _).
    by destruct before.
  - destruct (ipaddress.contains x a) eqn:Hx.
    + split.
      * intros [= <-]. exists [], rest. by split_and!.
      * intros ([|y before] & after & Heq & Hr & Hbefore).
        -- by injection Heq as <- _.
        -- injection Heq as <- _. apply Forall_cons in Hbefore as [Hy _]. congruence.
    + rewrite IH. split.
      * intros (before & after & -> & Hr & Hbefore).
        exists (x :: before), after. split_and!; [done|done|by constructor].
      * intros ([|y before] & after & Heq & Hr & Hbefore).
        -- injection Heq as <- _. congruence.
        -- injection Heq as <- ->. apply Forall_cons in Hbefore as [_ Hbefore].
           by exists before, after.
Qed.

Lemma first_match_shape a ranges :
  first_match a ranges = (false, None)
  ∨ ∃ r, first_match a ranges = (true, Some r).
Proof.
  induction ranges as [|x rest IH]; simpl; [by left|].
  destruct (ipaddress.contains x a); [right; by exists x|done].
Qed.

(** X1.  [is_target_ip] and [is_excluded_ip] answer with the first range of
    the configuration, in its order, that contains the address: the ranges
    before it do not.  They answer [(False, None)] exactly when the string
    is not an address or no range contains it, and give no other answer. *)
Theorem membership_test_first_match self ip_str :
  (∀ r, is_target_ip self ip_str = (true, Some r) ↔
        ∃ a before after,
          ipaddress.ip_address ip_str = Ok a
          ∧ target_ranges self = before ++ r :: after
          ∧ ipaddress.contains r a = true
          ∧ Forall (fun r' => ipaddress.contains r' a = false) before)
  ∧ (∀ r, is_excluded_ip self ip_str = (true, Some r) ↔
        ∃ a before after,
          ipaddress.ip_address ip_str = Ok a
          ∧ exclude_ranges self = before ++ r :: after
          ∧ ipaddress.contains r a = true
          ∧ Forall (fun r' => ipaddress.contains r' a = false) before)
  ∧ (is_target_ip self ip_str = (false, None) ↔ ¬ member (target_ranges self) ip_str)
  ∧ (is_excluded_ip self ip_str = (false, None) ↔ ¬ member (exclude_ranges self) ip_str)
  ∧ (is_target_ip self ip_str = (false, None)
     ∨ ∃ r, is_target_ip self ip_str = (true, Some r))
  ∧ (is_excluded_ip self ip_str = (false, None)
     ∨ ∃ r, is_excluded_ip self ip_str = (true, Some r)).
Proof.
  assert (∀ ranges r,
    match ipaddress.ip_address ip_str with
    | Ok ip => first_match ip ranges
    | Raise _ => (false, None)
    end = (true, Some r) ↔
    ∃ a before after,
      ipaddress.ip_address ip_str = Ok a ∧ ranges = before ++ r :: after
      ∧ ipaddress.contains r a = true
      ∧ Forall (fun r' => ipaddress.contains r' a = false) before) as Hfirst.
  { intros ranges r. destruct (ipaddress.ip_address ip_str) as [a|e].
    - rewrite first_match_spec. split.
      + intros (before & after & ? & ? & ?). by exists a, before, after.
      + intros (a' & before & after & [= <-] & ? & ? & ?). by exists before, after.
    - split; [discriminate|]. by intros (? & ? & ? & ? & _). }
  assert (∀ ranges,
    match ipaddress.ip_address ip_str with
    | Ok ip => first_match ip ranges
    | Raise _ => (false, None)
    end = (false, None) ↔ ¬ member ranges ip_str) as Hnone.
  { intros ranges. unfold member.
    destruct (ipaddress.ip_address ip_str) as [a|e].
    - split.
      + intros Hf (a' & r & [= <-] & Hr & Hc).
        assert (fst (first_match a ranges) = true) as Ht
          by (apply first_match_true; eauto).
        rewrite Hf in Ht. discriminate.
      + intros Hn. destruct (first_match_shape a ranges) as [|[r Hr]]; [done|].
        exfalso. apply Hn. apply first_match_spec in Hr as (b & af & -> & Hc & _).
        exists a, r. split_and!; [done| |done].
        apply elem_of_app. right. left.
    - split; [|done]. by intros _ (? & ? & ? & _). }
  assert (∀ ranges,
    match ipaddress.ip_address ip_str with
    | Ok ip => first_match ip ranges
    | Raise _ => (false, None)
    end = (false, None)
    ∨ ∃ r, match ipaddress.ip_address ip_str with
           | Ok ip => first_match ip ranges
           | Raise _ => (false, None)
           end = (true, Some r)) as Hshape.
  { intros ranges. destruct (ipaddress.ip_address ip_str); [|by left].
    apply first_match_shape. }
  unfold is_target_ip, is_excluded_ip. split_and!; auto.
Qed.

(** X2.  A range of one IP version never contains an address of the other:
    with IPv4 target ranges only, an address that parses as IPv6 (an
    IPv4-mapped one too) is not a target, and the other way round. *)
Theorem other_version_is_not_a_target self ip_str :
  (∀ a scope, ipaddress.ip_address ip_str = Ok (IPv6Addr a scope) →
     Forall (fun r => ∃ n p, r = IPv4Net n p) (target_ranges self) →
     is_target_ip self ip_str = (false, None))
  ∧ (∀ a, ipaddress.ip_address ip_str = Ok (IPv4Addr a) →
     Forall (fun r => ∃ n p scope, r = IPv6Net n p scope) (target_ranges self) →
     is_target_ip self ip_str = (false, None)).
Proof.
  unfold is_target_ip. split.
  - intros a scope -> Hall. induction Hall as [|r rest (n & p & ->) _ IH]; [done|].
    simpl. exact IH.
  - intros a -> Hall. induction Hall as [|r rest (n & p & scope & ->) _ IH]; [done|].
    simpl. exact IH.
Qed.

Lemma other_version_is_not_a_target_witness :
  ipaddress.ip_address "::ffff:10.0.0.2" = Ok (IPv6Addr 281470849515522 None)
  ∧ is_target_ip scenario_monitor "10.0.0.2" = (true, Some (IPv4Net 167772160 8))
  ∧ is_target_ip scenario_monitor "::ffff:10.0.0.2" = (false, None).
Proof.
  assert (ipaddress.ip_address "::ffff:10.0.0.2" = Ok (IPv6Addr 281470849515522 None))
    as Ha by (vm_compute; reflexivity).
  split; [exact Ha|]. split; [vm_compute; reflexivity|].
  destruct (other_version_is_not_a_target scenario_monitor "::ffff:10.0.0.2")
    as [H6 _].
  apply (H6 _ _ Ha). constructor; [by exists 167772160%N, 8%N|constructor].
Defined.

(** ** Reading the configuration *)

Lemma split_not_nil sep s : Str.split sep s ≠ [].
Proof.
  destruct s as [|c r]; simpl; [done|].
  destruct (Ascii.eqb c sep); [done|]. by destruct (Str.split sep r).
Qed.

Lemma split_app sep a b :
  Str.split sep (a +:+ String sep b) = Str.split sep a ++ Str.split sep b.
Proof.
  induction a as [|c a IH]; simpl.
  - by rewrite Ascii.eqb_refl.
  - rewrite IH. destruct (Ascii.eqb c sep); [done|].
    pose proof (split_not_nil sep a). by destruct (Str.split sep a).
Qed.

Lemma lstrip_all_space p s : all_space p = true → Str.lstrip (p +:+ s) = Str.lstrip s.
Proof.
  induction p as [|c p IH]; simpl; [done|].
  intros [Hc Hp]%andb_prop. rewrite Hc. by apply IH.
Qed.

Lemma rstrip_all_space q : all_space q = true → Str.rstrip q = EmptyString.
Proof.
  induction q as [|c q IH]; simpl; [done|].
  intros [Hc Hq]%andb_prop. by rewrite (IH Hq), Hc.
Qed.

Lemma rstrip_app_space s q : all_space q = true → Str.rstrip (s +:+ q) = Str.rstrip s.
Proof.
  intros Hq. induction s as [|c s IH]; simpl.
  - by apply rstrip_all_space.
  - by rewrite IH.
Qed.

Lemma append_empty_r s : s +:+ EmptyString = s.
Proof.
  induction s as [|c s IH]; [done|].
  change (String c (s +:+ EmptyString) = String c s). by rewrite IH.
Qed.

Lemma strip_padding p e q :
  all_space p = true → all_space q = true →
  Str.strip (p +:+ e +:+ q) = Str.strip e.
Proof.
  intros Hp Hq. unfold Str.strip. rewrite (lstrip_all_space _ _ Hp).
  induction e as [|c e IH]; simpl.
  - change (EmptyString +:+ q) with q.
    assert (Str.lstrip q = EmptyString) as ->; [|done].
    rewrite <- (append_empty_r q). by rewrite (lstrip_all_space _ _ Hq).
  - destruct (Str.isspace c); [done|].
    change (String c (e +:+ q)) with (String c e +:+ q).
    by apply rstrip_app_space.
Qed.

Lemma strip_all_space s : all_space s = true → Str.strip s = EmptyString.
Proof.
  intros Hs. pose proof (strip_padding s EmptyString EmptyString Hs eq_refl) as H.
  change (EmptyString +:+ EmptyString) with EmptyString in H.
  rewrite append_empty_r in H. exact H.
Qed.


(** X4.  A monitor that starts has the target and the exclude ranges of
    the entries that parse, each list in the order of its setting, and an
    empty alert memory; it has printed one warning for each entry that does
    not parse, targets first, then the warning about root if it does not
    run as root. *)
Theorem startup_state os out self :
  __init__ os = (out, inl self) →
  target_ranges self
  = omap entry_network
      (Str.split "," (getenv os "TARGET_IP_RANGES" default_TARGET_IP_RANGES))
  ∧ exclude_ranges self
    = omap entry_network
        (Str.split "," (getenv os "EXCLUDE_IP_RANGES" default_EXCLUDE_IP_RANGES))
  ∧ alerted_connections self = ∅
  ∧ out
    = omap (entry_warning WarnInvalidRange)
        (Str.split "," (getenv os "TARGET_IP_RANGES" default_TARGET_IP_RANGES))
      ++ omap (entry_warning WarnInvalidExcludeRange)
           (Str.split "," (getenv os "EXCLUDE_IP_RANGES" default_EXCLUDE_IP_RANGES))
      ++ (if (geteuid os =? 0)%N then [] else [WarnNotRoot]).
Proof.
  unfold __init__. rewrite !parse_ranges_entries. simpl.
  destruct (omap entry_network _) as [|r ranges] eqn:Ht; [discriminate|].
  intros [= <- <-]. simpl. split_and!; try done.
  by destruct (geteuid os =? 0)%N.
Qed.

Lemma startup_state_witness :
  ∃ self,
    __init__ untidy_os
    = ([WarnInvalidRange "bogus"; WarnNotRoot], inl self)
    ∧ target_ranges self = [IPv4Net 167772160 8; IPv4Net 3232235520 16]
    ∧ exclude_ranges self = []
    ∧ alerted_connections self = ∅.
Proof.
  eexists. split; [vm_compute; reflexivity|].
  destruct (startup_state untidy_os _ _ ltac:(vm_compute; reflexivity))
    as (Ht & He & Hm & _).
  split; [rewrite Ht; vm_compute; reflexivity|].
  split; [rewrite He; vm_compute; reflexivity|exact Hm].
Defined.

(** X5.  Reading a list made of two lists joined by a comma gives the
    ranges of the first followed by those of the second, and the warnings
    likewise. *)
Theorem parse_ranges_of_joined_lists warn a b :
  parse_ranges warn (Str.split "," (a +:+ "," +:+ b)) []
  = (fst (parse_ranges warn (Str.split "," a) [])
       ++ fst (parse_ranges warn (Str.split "," b) []),
     snd (parse_ranges warn (Str.split "," a) [])
       ++ snd (parse_ranges warn (Str.split "," b) [])).
Proof.
  change (a +:+ "," +:+ b) with (a +:+ String "," b).
  rewrite split_app, !parse_ranges_entries. simpl. by rewrite !omap_app.
Qed.

(** X6.  White space around an entry does not count: the list reads the
    same with the entry padded as with the entry bare. *)
Theorem padded_entry_reads_the_same warn before p e q after ranges :
  all_space p = true → all_space q = true →
  parse_ranges warn (before ++ (p +:+ e +:+ q) :: after) ranges
  = parse_ranges warn (before ++ e :: after) ranges.
Proof.
  intros Hp Hq. rewrite !parse_ranges_entries, !omap_app. simpl.
  unfold entry_network, entry_warning. by rewrite (strip_padding _ _ _ Hp Hq).
Qed.

Lemma padded_entry_reads_the_same_witness :
  parse_ranges WarnInvalidRange ["172.16.0.0/12"; "  10.0.0.0/8 "; "x"] []
  = ([IPv4Net 2886729728 12; IPv4Net 167772160 8], [WarnInvalidRange "x"]).
Proof.
  transitivity (parse_ranges WarnInvalidRange
                  (["172.16.0.0/12"] ++ "10.0.0.0/8" :: ["x"]) []).
  - exact (padded_entry_reads_the_same WarnInvalidRange ["172.16.0.0/12"]
             "  " "10.0.0.0/8" " " ["x"] [] eq_refl eq_refl).
  - vm_compute; reflexivity.
Defined.

(** X7.  A setting made of commas and white space only has no entry: it
    gives no range and no warning; as [TARGET_IP_RANGES] (the empty string
    too) it makes start-up fail with the one line about no valid range. *)
Theorem blank_setting_has_no_entry warn s :
  Forall (fun e => all_space e = true) (Str.split "," s) →
  parse_ranges warn (Str.split "," s) [] = ([], [])
  ∧ (∀ os, environ os !! "TARGET_IP_RANGES" = Some s →
       __init__ os = ([WarnNoValidRanges], inr 1%N)).
Proof.
  intros Hblank.
  assert (parse_ranges warn (Str.split "," s) [] = ([], [])) as Hparse.
  { rewrite parse_ranges_entries. simpl.
    induction Hblank as [|e rest He _ IH]; [done|]. simpl.
    unfold entry_network, entry_warning in *.
    by rewrite (strip_all_space _ He). }
  split; [done|]. intros os Hos. unfold __init__, getenv. rewrite Hos. simpl.
  assert (parse_ranges WarnInvalidRange (Str.split "," s) [] = ([], [])) as ->; [|done].
  rewrite parse_ranges_entries. simpl.
  clear Hparse. induction Hblank as [|e rest He _ IH]; [done|]. simpl.
  unfold entry_network, entry_warning in *.
  by rewrite (strip_all_space _ He).
Qed.

Lemma blank_setting_has_no_entry_witness :
  parse_ranges WarnInvalidRange (Str.split "," " , ,,") [] = ([], [])
  ∧ __init__ {| environ := {[ "TARGET_IP_RANGES" := "" ]}; geteuid := 0 |}
    = ([WarnNoValidRanges], inr 1%N).
Proof.
  split.
  - apply (blank_setting_has_no_entry WarnInvalidRange " , ,,").
    vm_compute. repeat constructor.
  - apply (blank_setting_has_no_entry WarnInvalidRange "").
    + vm_compute. repeat constructor.
    + vm_compute; reflexivity.
Defined.

(** ** What a cycle alerts and remembers *)

Lemma eligible_ranges self self' conn :
  target_ranges self' = target_ranges self →
  exclude_ranges self' = exclude_ranges self →
  eligible self' conn = eligible self conn.
Proof.
  intros Ht He. unfold eligible.
  destruct (status conn), (raddr conn) as [r|], (laddr conn); try done.
  by rewrite (is_excluded_ip_ranges _ _ _ He), (is_target_ip_ranges _ _ _ Ht).
Qed.

Lemma eligible_observed self connections conn k :
  conn ∈ connections → eligible self conn = Some k →
  conn_id k ∈ active_connections connections.
Proof.
  intros Hin He. unfold eligible in He.
  destruct (status conn) eqn:Hst; try done.
  destruct (raddr conn) as [r|] eqn:Hr; [|done].
  destruct (laddr conn); [|done].
  destruct (fst (is_excluded_ip self (ip r))); [done|].
  destruct (fst (is_target_ip self (ip r))); [|done].
  injection He as <-. eauto using elem_of_active_connections.
Qed.

Lemma get_process_name_succeeds w conn :
  lookups_succeed w →
  ∃ name, match pid_truthy (pid conn) with
          | Some p => get_process_name w p
          | None => Some "Unknown"
          end = Some name.
Proof.
  intros Hw. destruct (pid_truthy (pid conn)) as [p|]; [|by eexists].
  unfold get_process_name. specialize (Hw p).
  destruct (Process_name w p) as [name| | |] eqn:Hp;
    [by exists name|by exists "Unknown"|by exists "Unknown"|congruence].
Qed.

Lemma for_body_eligible os w self conn :
  lookups_succeed w →
  ∃ out self',
    for_body os w self conn = (out, self', Normal)
    ∧ target_ranges self' = target_ranges self
    ∧ exclude_ranges self' = exclude_ranges self
    ∧ alerts out
      = match eligible self conn with
        | Some r => if bool_decide (conn_id r ∈ alerted_connections self)
                    then [] else [r]
        | None => []
        end
    ∧ alerted_connections self'
      = alerted_connections self ∪ list_to_set (conn_id <$> alerts out).
Proof.
  intros Hw. destruct (get_process_name_succeeds w conn Hw) as [name Hname].
  unfold for_body, eligible. rewrite Hname.
  destruct (status conn); try (eexists _, _; split_and!; [done..|set_solver]).
  destruct (raddr conn) as [r|]; [|eexists _, _; split_and!; [done..|set_solver]].
  destruct (laddr conn) as [l|]; [|eexists _, _; split_and!; [done..|set_solver]].
  destruct (is_excluded_ip self (ip r)) as [[] exr]; simpl;
    [eexists _, _; split_and!; [done..|set_solver]|].
  destruct (is_target_ip self (ip r)) as [[] tgr]; simpl;
    [|eexists _, _; split_and!; [done..|set_solver]].
  case_bool_decide; [eexists _, _; split_and!; [done..|set_solver]|].
  eexists _, _. split; [done|]. simpl. rewrite alerts_send_notification. simpl.
  split_and!; [done..|set_solver].
Qed.

Lemma for_connections_eligible os w connections : ∀ self,
  lookups_succeed w →
  ∃ out self',
    for_connections os w self connections = (out, self', Normal)
    ∧ target_ranges self' = target_ranges self
    ∧ exclude_ranges self' = exclude_ranges self
    ∧ (∀ k, k ∈ alerts out ↔
            k ∈ omap (eligible self) connections
            ∧ conn_id k ∉ alerted_connections self)
    ∧ alerted_connections self'
      = alerted_connections self
        ∪ list_to_set (conn_id <$> omap (eligible self) connections).
Proof.
  induction connections as [|conn rest IH]; intros self Hw.
  - exists [], self. simpl. split_and!; [done..| |set_solver].
    intros k. split; [by intros ?%elem_of_nil|by intros [?%elem_of_nil _]].
  - destruct (for_body_eligible os w self conn Hw)
      as (out1 & self1 & Hb & Ht1 & He1 & Ha1 & Hm1).
    destruct (IH self1 Hw) as (out2 & self2 & Hf & Ht2 & He2 & Ha2 & Hm2).
    exists (out1 ++ out2), self2. cbn [for_connections]. rewrite Hb, Hf.
    split; [done|]. split; [congruence|]. split; [congruence|].
    assert (omap (eligible self1) rest = omap (eligible self) rest) as Hsame.
    { apply list_omap_ext, Forall_Forall2_diag, Forall_forall.
      intros c _. by apply eligible_ranges. }
    rewrite Hsame in Ha2, Hm2. clear Hsame.
    assert (omap (eligible self) (conn :: rest)
            = match eligible self conn with
              | Some r => r :: omap (eligible self) rest
              | None => omap (eligible self) rest
              end) as -> by reflexivity.
    destruct (eligible self conn) as [r|] eqn:Hel.
    + case_bool_decide as Hmem.
      * rewrite Ha1 in Hm1. split.
        -- intros k. rewrite alerts_app, elem_of_app, Ha2, Ha1, Hm1, elem_of_cons.
           split.
           ++ intros [?%elem_of_nil|[Hk Hn]]; [done|]. split; [by right|set_solver].
           ++ intros [[->|Hk] Hn]; [done|]. right. split; [done|set_solver].
        -- rewrite Hm2, Hm1. set_solver.
      * rewrite Ha1 in Hm1. split.
        -- intros k. rewrite alerts_app, elem_of_app, Ha2, Ha1, Hm1,
             list_elem_of_singleton, elem_of_cons.
           split.
           ++ intros [->|[Hk Hn]]; [split; [by left|done]|].
              split; [by right|set_solver].
           ++ intros [[->|Hk] Hn]; [by left|].
              destruct (decide (conn_id k = conn_id r)) as [Heq|Hne].
              ** left. by apply conn_id_inj.
              ** right. split; [done|set_solver].
        -- rewrite Hm2, Hm1. set_solver.
    + rewrite Ha1 in Hm1. split.
      * intros k. rewrite alerts_app, elem_of_app, Ha2, Ha1, Hm1. split.
        -- intros [?%elem_of_nil|[Hk Hn]]; [done|]. split; [done|set_solver].
        -- intros [Hk Hn]. right. split; [done|set_solver].
      * rewrite Hm2, Hm1. set_solver.
Qed.

Lemma cycle_memory os w self out self' :
  cycle os w self = (out, self', Normal) →
  ∃ connections,
    net_connections w = Sampled connections
    ∧ target_ranges self' = target_ranges self
    ∧ exclude_ranges self' = exclude_ranges self
    ∧ alerted_connections self'
      = (alerted_connections self ∪ list_to_set (conn_id <$> alerts out))
        ∩ active_connections connections.
Proof.
  unfold cycle. destruct (net_connections w) as [connections|]; [|discriminate].
  pose proof (for_connections_run os w self connections) as Hrun.
  destruct (for_connections os w self connections) as [[out1 self1] sig1].
  pose proof (loop_run_ranges _ _ _ _ _ _ _ Hrun) as [Ht He].
  apply loop_run_alerts in Hrun as (Hmem & _).
  destruct sig1; [|discriminate..].
  intros [= <- <- _]. exists connections. simpl. unfold reconcile.
  by rewrite Hmem.
Qed.



(** X8.  In a cycle whose process lookups do not fail, the endpoints
    alerted are exactly those of the established connections, with both
    addresses known, to a target that is not excluded, whose key was not in
    the memory; and the memory becomes the old keys still observed together
    with the keys of all such endpoints. *)
Theorem cycle_alerts_and_memory os w self connections :
  net_connections w = Sampled connections →
  lookups_succeed w →
  (∀ k, k ∈ alerts (fst (fst (cycle os w self))) ↔
        k ∈ omap (eligible self) connections
        ∧ conn_id k ∉ alerted_connections self)
  ∧ alerted_connections (snd (fst (cycle os w self)))
    = (alerted_connections self ∩ active_connections connections)
      ∪ list_to_set (conn_id <$> omap (eligible self) connections)
  ∧ target_ranges (snd (fst (cycle os w self))) = target_ranges self
  ∧ exclude_ranges (snd (fst (cycle os w self))) = exclude_ranges self.
Proof.
  intros Hs Hw.
  destruct (for_connections_eligible os w connections self Hw)
    as (out & self' & Hf & Ht & He & Ha & Hm).
  unfold cycle. rewrite Hs, Hf. simpl. unfold reconcile.
  split_and!; [done| |done|done].
  rewrite Hm.
  assert (list_to_set (conn_id <$> omap (eligible self) connections)
          ⊆ active_connections connections) as Hsub; [|set_solver].
  intros key (k & -> & Hk)%elem_of_list_to_set%list_elem_of_fmap.
  apply list_elem_of_omap in Hk as (conn & Hin & Hel).
  eauto using eligible_observed.
Qed.

Lemma cycle_alerts_and_memory_witness :
  alerts (fst (fst (cycle unconfigured_os
                      (sound_world [established gateway; listening;
                                    established web; half_known web;
                                    established web])
                      scenario_monitor)))
  = [web]
  ∧ alerted_connections
      (snd (fst (cycle unconfigured_os
                   (sound_world [established gateway; listening;
                                 established web; half_known web;
                                 established web])
                   scenario_monitor)))
    = (∅ ∩ active_connections [established gateway; listening;
                                established web; half_known web;
                                established web])
      ∪ list_to_set (conn_id <$> [web; web]).
Proof.
  destruct (cycle_alerts_and_memory unconfigured_os
              (sound_world [established gateway; listening; established web;
                            half_known web; established web])
              scenario_monitor _ eq_refl) as (_ & Hm & _).
  - intros p. discriminate.
  - split; [vm_compute; reflexivity|]. rewrite Hm. reflexivity.
Defined.



(** ** The memory over a run *)

Lemma memory_after_run os worlds : ∀ self trace self',
  monitor_connections os self worlds = (trace, Some self') →
  ∀ key, key ∈ alerted_connections self' ↔
    (key ∈ alerted_connections self ∧ Forall (key_observed key) worlds)
    ∨ ∃ k i out, key = conn_id k ∧ trace !! i = Some out ∧ k ∈ alerts out
                 ∧ Forall (observed k) (drop i worlds).
Proof.
  induction worlds as [|w rest IH]; intros self trace self' Hrun key.
  - injection Hrun as <- <-. split.
    + intros Hk. left. by split.
    + intros [[Hk _]|(k & i & out & _ & Hi & _)]; [done|].
      by rewrite lookup_nil in Hi.
  - rewrite monitor_connections_cons in Hrun.
    destruct (cycle os w self) as [[out0 self1] sig] eqn:Hc.
    destruct sig; [|discriminate..].
    destruct (monitor_connections os self1 rest) as [trace1 final1] eqn:Hrest.
    simpl in Hrun. injection Hrun as <- ->.
    apply cycle_memory in Hc as (connections & Hs & _ & _ & Hm).
    rewrite (IH _ _ _ Hrest key), Hm.
    assert (∀ k', observed k' w ↔ conn_id k' ∈ active_connections connections) as Hobs.
    { intros k'. unfold observed. by rewrite Hs. }
    assert (key_observed key w ↔ key ∈ active_connections connections) as Hkobs.
    { unfold key_observed. by rewrite Hs. }
    split.
    + intros [[Hk Hall]|(k & i & out & -> & Hi & Hk & Hall)].
      * apply elem_of_intersection in Hk as [[Hk|Hk]%elem_of_union Hact].
        -- left. split; [done|]. constructor; [by apply Hkobs|done].
        -- right. apply elem_of_list_to_set, list_elem_of_fmap in Hk as (k & -> & Hk).
           exists k, 0%nat, out0. split_and!; [done|done|done|].
           simpl. constructor; [by apply Hobs|].
           eapply Forall_impl; [exact Hall|]. by intros.
      * right. exists k, (S i), out. by split_and!.
    + intros [[Hk Hall]|(k & i & out & -> & Hi & Hk & Hall)].
      * apply Forall_cons in Hall as [Hw Hall]. left. split; [|done].
        apply Hkobs in Hw. set_solver.
      * destruct i as [|i]; simpl in Hi, Hall.
        -- injection Hi as <-. apply Forall_cons in Hall as [Hw Hall].
           left. split.
           ++ apply Hobs in Hw. apply elem_of_intersection. split; [|done].
              apply elem_of_union_r, elem_of_list_to_set. by apply list_elem_of_fmap_2.
           ++ eapply Forall_impl; [exact Hall|]. by intros.
        -- right. by exists k, i, out.
Qed.

(** X10.  From a fresh monitor, after any number of cycles with the loop
    still running, the memory holds exactly the keys of the endpoints that
    were alerted in some cycle and observed in every cycle from that one
    on. *)
Theorem memory_is_alerted_and_still_present os worlds self trace self' :
  alerted_connections self = ∅ →
  monitor_connections os self worlds = (trace, Some self') →
  ∀ key, key ∈ alerted_connections self' ↔
    ∃ k i out, key = conn_id k ∧ trace !! i = Some out ∧ k ∈ alerts out
               ∧ Forall (observed k) (drop i worlds).
Proof.
  intros Hfresh Hrun key. rewrite (memory_after_run _ _ _ _ _ Hrun key), Hfresh.
  split; [|by right]. intros [[?%not_elem_of_empty _]|H]; done.
Qed.

Lemma memory_is_alerted_and_still_present_witness :
  snd (monitor_connections unconfigured_os scenario_monitor
         [sound_world [established web]; sound_world [half_known web]])
  = Some (set_alerted scenario_monitor {[ conn_id web ]})
  ∧ ∃ k i out,
      conn_id web = conn_id k
      ∧ fst (monitor_connections unconfigured_os scenario_monitor
               [sound_world [established web]; sound_world [half_known web]])
        !! i = Some out
      ∧ k ∈ alerts out
      ∧ Forall (observed k)
          (drop i [sound_world [established web]; sound_world [half_known web]]).
Proof.
  assert (monitor_connections unconfigured_os scenario_monitor
            [sound_world [established web]; sound_world [half_known web]]
          = (fst (monitor_connections unconfigured_os scenario_monitor
                    [sound_world [established web]; sound_world [half_known web]]),
             Some (set_alerted scenario_monitor {[ conn_id web ]}))) as Hrun
    by (vm_compute; reflexivity).
  split; [by rewrite Hrun|].
  destruct (memory_is_alerted_and_still_present unconfigured_os
              [sound_world [established web]; sound_world [half_known web]]
              scenario_monitor _ _ eq_refl Hrun (conn_id web)) as [H _].
  apply H. simpl. set_solver.
Defined.

(** ** How the loop ends *)



Lemma body_step_no_closing_line os w self conn out self' sig :
  body_step os w self conn out self' sig → Forall (fun o => ¬ closing_line o) out.
Proof.
  destruct 1 as [| |r l a m Hst Hr Hl Hex Htg Hmem Ha Hm]; [constructor..|].
  constructor; [by intros [|]|].
  unfold send_notification.
  destruct (negb _ && _), (subprocess_run w _);
    repeat constructor; by intros [|].
Qed.

Lemma loop_run_no_closing_line os w self connections out self' sig :
  loop_run os w self connections out self' sig →
  Forall (fun o => ¬ closing_line o) out.
Proof.
  induction 1 as [|? ? ? ? ? ? Hb|? ? ? ? ? ? ? ? Hb _ IH]; [constructor| |].
  - by eapply body_step_no_closing_line.
  - apply Forall_app. split; [by eapply body_step_no_closing_line|done].
Qed.

Lemma cycle_no_closing_line os w self :
  Forall (fun o => ¬ closing_line o) (fst (fst (cycle os w self))).
Proof.
  unfold cycle. destruct (net_connections w) as [connections|]; [|constructor].
  pose proof (for_connections_run os w self connections) as Hrun.
  destruct (for_connections os w self connections) as [[out1 self1] sig1].
  apply loop_run_no_closing_line in Hrun. by destruct sig1.
Qed.

(** X12.  From the [try] of [monitor_connections] on, the loop ends only
    through one of the two [except] clauses, and its line is the last one
    printed: while the loop runs no cycle has printed the stopping or the
    error line, and once the method has returned exactly one such line has
    been printed, at the very end. *)
Theorem loop_ends_with_one_closing_line os self worlds :
  (∀ self', snd (monitor_connections os self worlds) = Some self' →
     Forall (Forall (fun o => ¬ closing_line o))
       (fst (monitor_connections os self worlds)))
  ∧ (snd (monitor_connections os self worlds) = None →
     ∃ before out last,
       fst (monitor_connections os self worlds) = before ++ [out ++ [last]]
       ∧ closing_line last
       ∧ Forall (Forall (fun o => ¬ closing_line o)) before
       ∧ Forall (fun o => ¬ closing_line o) out).
Proof.
  revert self. induction worlds as [|w rest IH]; intros self.
  - simpl. split; [constructor|discriminate].
  - rewrite monitor_connections_cons.
    pose proof (cycle_no_closing_line os w self) as Hout.
    destruct (cycle os w self) as [[out self1] sig]. simpl in Hout.
    destruct (IH self1) as [IHrun IHret]. destruct sig; simpl.
    + split.
      * intros self' Hfinal. constructor; [done|by eapply IHrun].
      * intros (before & out' & last & -> & Hlast & Hbefore & Hout')%IHret.
        exists (out :: before), out', last. split_and!; [done|done| |done].
        by constructor.
    + split; [discriminate|]. intros _.
      exists [], out, PrintError. split_and!; [done|by right|constructor|done].
    + split; [discriminate|]. intros _.
      exists [], out, PrintStopping. split_and!; [done|by left|constructor|done].
Qed.

Lemma loop_ends_with_one_closing_line_witness :
  snd (monitor_connections unconfigured_os scenario_monitor
         [sound_world [established web]; no_sample_world; sound_world []])
  = None
  ∧ ∃ before out last,
      fst (monitor_connections unconfigured_os scenario_monitor
             [sound_world [established web]; no_sample_world; sound_world []])
      = before ++ [out ++ [last]]
      ∧ closing_line last
      ∧ Forall (Forall (fun o => ¬ closing_line o)) before
      ∧ Forall (fun o => ¬ closing_line o) out.
Proof.
  assert (snd (monitor_connections unconfigured_os scenario_monitor
                 [sound_world [established web]; no_sample_world; sound_world []])
          = None) as Hreturned by (vm_compute; reflexivity).
  split; [exact Hreturned|].
  destruct (loop_ends_with_one_closing_line unconfigured_os scenario_monitor
              [sound_world [established web]; no_sample_world; sound_world []])
    as [_ Hret].
  exact (Hret Hreturned).
Defined.

Lemma for_body_alertable os w self conn k :
  eligible self conn = Some k →
  conn_id k ∉ alerted_connections self →
  ∃ l range,
    laddr conn = Some l ∧ raddr conn = Some k
    ∧ for_body os w self conn
      = match
          match pid_truthy (pid conn) with
          | Some p => get_process_name w p
          | None => Some "Unknown"
          end
        with
        | None => ([], self, Exc)
        | Some name =>
            (PrintAlert {| alert_remote := k; alert_local_port := port l;
                           alert_matched_range := range;
                           alert_process_name := name; alert_pid := pid conn |}
               :: send_notification os w "Bepa Alert"
                    {| msg_target := k; msg_process := name; msg_range := range |},
             set_alerted self ({[conn_id k]} ∪ alerted_connections self),
             Normal)
        end.
Proof.
  unfold eligible, for_body. intros Hel Hnew.
  destruct (status conn); try done.
  destruct (raddr conn) as [r|]; [|done].
  destruct (laddr conn) as [l|]; [|done].
  destruct (is_excluded_ip self (ip r)) as [[] exr]; [done|]. simpl in Hel.
  destruct (is_target_ip self (ip r)) as [[] tgr]; [|done]. simpl in Hel.
  injection Hel as <-. exists l, tgr. split; [done|]. split; [done|].
  by rewrite bool_decide_eq_false_2.
Qed.

Lemma for_connections_app os w l1 : ∀ self l2,
  for_connections os w self (l1 ++ l2)
  = match for_connections os w self l1 with
    | (out, self1, Normal) =>
        (out ++ fst (fst (for_connections os w self1 l2)),
         snd (fst (for_connections os w self1 l2)),
         snd (for_connections os w self1 l2))
    | r => r
    end.
Proof.
  induction l1 as [|conn l1 IH]; intros self l2.
  - simpl. by destruct (for_connections os w self l2) as [[? ?] ?].
  - simpl. destruct (for_body os w self conn) as [[out1 self1] []]; [|done..].
    rewrite IH.
    destruct (for_connections os w self1 l1) as [[out2 self2] []]; [|done..].
    destruct (for_connections os w self2 l2) as [[out3 self3] sig3]. simpl.
    by rewrite app_assoc.
Qed.

(** X13.  Ctrl+C during the sleep ends the loop after the cycle has done
    its work: the alerts of the cycle have been printed as in any cycle,
    then the closing line is printed and the method returns; the cycles the
    host would have supplied after it do not run. *)
Theorem interrupt_ends_loop_after_the_cycle os self w rest connections :
  net_connections w = Sampled connections →
  lookups_succeed w →
  sleep w = Interrupted →
  ∃ out,
    monitor_connections os self (w :: rest) = ([out ++ [PrintStopping]], None)
    ∧ ∀ k, k ∈ alerts out ↔
           k ∈ omap (eligible self) connections
           ∧ conn_id k ∉ alerted_connections self.
Proof.
  intros Hs Hw Hsleep.
  destruct (for_connections_eligible os w connections self Hw)
    as (out & self' & Hf & _ & _ & Ha & _).
  exists out. split; [|done].
  rewrite monitor_connections_cons. unfold cycle. by rewrite Hs, Hf, Hsleep.
Qed.

Lemma interrupt_ends_loop_after_the_cycle_witness :
  ∃ out,
    monitor_connections unconfigured_os scenario_monitor
      [interrupted_world [established web]; sound_world [established web]]
    = ([out ++ [PrintStopping]], None)
    ∧ web ∈ alerts out.
Proof.
  destruct (interrupt_ends_loop_after_the_cycle unconfigured_os scenario_monitor
              (interrupted_world [established web])
              [sound_world [established web]] [established web] eq_refl)
    as (out & Hrun & Ha).
  - by intros p.
  - reflexivity.
  - exists out. split; [exact Hrun|]. apply Ha. split.
    + vm_compute. left.
    + simpl. set_solver.
Defined.

(** X14.  An exception of the process lookup other than the two caught is
    fail-stop: the connection is not alerted and its key is not recorded,
    the connections after it in the sample are not looked at, the memory is
    not reconciled, and the loop ends with the error line. *)
Theorem process_lookup_error_is_fail_stop os w self before conn rest out self1 k p :
  for_connections os w self before = (out, self1, Normal) →
  eligible self1 conn = Some k →
  conn_id k ∉ alerted_connections self1 →
  pid conn = Some p → p ≠ 0%N →
  Process_name w p = ProcessRaises →
  for_body os w self1 conn = ([], self1, Exc)
  ∧ for_connections os w self (before ++ conn :: rest) = (out, self1, Exc)
  ∧ (net_connections w = Sampled (before ++ conn :: rest) →
     cycle os w self = (out, self1, Exc)
     ∧ ∀ later, monitor_connections os self (w :: later)
                = ([out ++ [PrintError]], None)).
Proof.
  intros Hbefore Hel Hnew Hpid Hp Hraise.
  destruct (for_body_alertable os w self1 conn k Hel Hnew) as (l & range & _ & _ & Hb).
  assert (pid_truthy (pid conn) = Some p) as Htruthy.
  { rewrite Hpid. by destruct p. }
  rewrite Htruthy in Hb. unfold get_process_name in Hb. rewrite Hraise in Hb.
  assert (for_connections os w self (before ++ conn :: rest) = (out, self1, Exc)) as Hfor.
  { rewrite for_connections_app, Hbefore. cbn [for_connections]. rewrite Hb.
    simpl. by rewrite app_nil_r. }
  split_and!; [done|done|].
  intros Hs. assert (cycle os w self = (out, self1, Exc)) as Hc.
  { unfold cycle. by rewrite Hs, Hfor. }
  split; [done|]. intros later. by rewrite monitor_connections_cons, Hc.
Qed.

Lemma process_lookup_error_is_fail_stop_witness :
  monitor_connections unconfigured_os scenario_monitor
    [no_process_world [established gateway; established web;
                       established {| ip := "10.0.0.3"; port := 22 |}];
     sound_world [established web]]
  = ([[PrintError]], None).
Proof.
  destruct (process_lookup_error_is_fail_stop unconfigured_os
              (no_process_world [established gateway; established web;
                                 established {| ip := "10.0.0.3"; port := 22 |}])
              scenario_monitor [established gateway] (established web)
              [established {| ip := "10.0.0.3"; port := 22 |}]
              [] scenario_monitor web 4242%N) as (_ & _ & H).
  - vm_compute; reflexivity.
  - vm_compute; reflexivity.
  - simpl. set_solver.
  - reflexivity.
  - discriminate.
  - reflexivity.
  - destruct (H eq_refl) as [_ Hrun]. apply Hrun.
Defined.

(** X15.  When the connection has no pid (or pid 0), or the process has
    gone or may not be inspected, the alert still fires, with the process
    name [Unknown]. *)
Theorem unknown_process_still_alerts os w self conn k :
  eligible self conn = Some k →
  conn_id k ∉ alerted_connections self →
  (pid conn = None ∨ pid conn = Some 0%N
   ∨ ∃ p, pid conn = Some p
          ∧ (Process_name w p = NoSuchProcess ∨ Process_name w p = AccessDenied)) →
  ∃ a out,
    for_body os w self conn
    = (PrintAlert a :: out,
       set_alerted self ({[conn_id k]} ∪ alerted_connections self), Normal)
    ∧ alert_remote a = k
    ∧ alert_process_name a = "Unknown"
    ∧ alert_pid a = pid conn
    ∧ alerts out = [].
Proof.
  intros Hel Hnew Hpid.
  destruct (for_body_alertable os w self conn k Hel Hnew) as (l & range & _ & _ & Hb).
  assert (match pid_truthy (pid conn) with
          | Some p => get_process_name w p
          | None => Some "Unknown"
          end = Some "Unknown") as Hname.
  { destruct Hpid as [->|[->|(p & -> & Hp)]]; [done|done|].
    destruct p as [|p]; [done|]. simpl. unfold get_process_name.
    by destruct Hp as [-> | ->]. }
  rewrite Hname in Hb. eexists _, _. split; [exact Hb|].
  split_and!; [done|done|done|]. apply alerts_send_notification.
Qed.

Lemma unknown_process_still_alerts_witness :
  ∃ a out,
    for_body unconfigured_os (gone_process_world [established web]) scenario_monitor
      (established web)
    = (PrintAlert a :: out,
       set_alerted scenario_monitor ({[conn_id web]} ∪ ∅), Normal)
    ∧ alert_remote a = web
    ∧ alert_process_name a = "Unknown".
Proof.
  destruct (unknown_process_still_alerts unconfigured_os
              (gone_process_world [established web]) scenario_monitor
              (established web) web) as (a & out & Hb & Hr & Hn & _).
  - vm_compute; reflexivity.
  - simpl. set_solver.
  - right. right. exists 4242%N. split; [reflexivity|by left].
  - exists a, out. split; [exact Hb|]. split; [exact Hr|exact Hn].
Defined.

(** ** Which connections count *)

(** X16.  The key [ip:port] identifies the endpoint, although an IPv6
    address has colons of its own: two endpoints with the same key are the
    same endpoint; so the observed set holds the key of an endpoint exactly
    when the sample has an established connection to it. *)
Theorem key_identifies_endpoint :
  (∀ k1 k2, conn_id k1 = conn_id k2 ↔ k1 = k2)
  ∧ (∀ k connections,
       conn_id k ∈ active_connections connections ↔
       ∃ conn, conn ∈ connections ∧ raddr conn = Some k
               ∧ status conn = CONN_ESTABLISHED).
Proof.
  split.
  - intros k1 k2. split; [apply conn_id_inj|by intros ->].
  - intros k connections. split.
    + unfold active_connections.
      intros (conn & Hin & Hc)%elem_of_list_to_set%list_elem_of_omap.
      exists conn. destruct (raddr conn) as [r|]; [|done].
      destruct (status conn); try done.
      injection Hc as Hc%conn_id_inj. by subst.
    + intros (conn & ? & ? & ?). eauto using elem_of_active_connections.
Qed.

(** X17.  A connection that is not established, or has no remote address,
    does not exist for the monitor: the loop body does nothing on it, and
    it adds nothing to the observed set. *)
Theorem unconnected_socket_is_invisible os w self conn rest :
  status conn ≠ CONN_ESTABLISHED ∨ raddr conn = None →
  for_body os w self conn = ([], self, Normal)
  ∧ for_connections os w self (conn :: rest) = for_connections os w self rest
  ∧ active_connections (conn :: rest) = active_connections rest.
Proof.
  intros Hconn.
  assert (for_body os w self conn = ([], self, Normal)) as Hb.
  { unfold for_body. destruct Hconn as [Hst| ->].
    - by destruct (status conn), (raddr conn), (laddr conn).
    - by destruct (status conn). }
  split; [done|]. split.
  - simpl. rewrite Hb. by destruct (for_connections os w self rest) as [[? ?] ?].
  - unfold active_connections. simpl. destruct Hconn as [Hst| ->]; [|done].
    by destruct (raddr conn), (status conn).
Qed.

Lemma unconnected_socket_is_invisible_witness :
  for_connections unconfigured_os (sound_world []) scenario_monitor
    [listening; established web]
  = for_connections unconfigured_os (sound_world []) scenario_monitor
      [established web]
  ∧ active_connections [listening; established web]
    = active_connections [established web].
Proof.
  destruct (unconnected_socket_is_invisible unconfigured_os (sound_world [])
              scenario_monitor listening [established web]) as (_ & Hf & Ha).
  - left. discriminate.
  - split; [exact Hf|exact Ha].
Defined.

(** X18.  An established connection whose local address is not known never
    gives an alert, but its endpoint counts as observed: a key already in
    the memory stays there through a cycle that sees the endpoint only so. *)
Theorem connection_without_local_address os w self conn r connections :
  status conn = CONN_ESTABLISHED → raddr conn = Some r → laddr conn = None →
  for_body os w self conn = ([], self, Normal)
  ∧ (conn ∈ connections → conn_id r ∈ active_connections connections)
  ∧ (conn ∈ connections → net_connections w = Sampled connections →
     lookups_succeed w → conn_id r ∈ alerted_connections self →
     conn_id r ∈ alerted_connections (snd (fst (cycle os w self)))).
Proof.
  intros Hst Hr Hl. split_and!.
  - unfold for_body. by rewrite Hst, Hr, Hl.
  - intros Hin. eauto using elem_of_active_connections.
  - intros Hin Hs Hw Hmem.
    destruct (for_connections_eligible os w connections self Hw)
      as (out & self' & Hf & _ & _ & _ & Hm).
    unfold cycle. rewrite Hs, Hf. simpl. unfold reconcile. rewrite Hm.
    apply elem_of_intersection. split; [by apply elem_of_union_l|].
    eauto using elem_of_active_connections.
Qed.

Lemma connection_without_local_address_witness :
  alerts (fst (fst (cycle unconfigured_os (sound_world [half_known web])
                      scenario_monitor))) = []
  ∧ conn_id web
    ∈ alerted_connections
        (snd (fst (cycle unconfigured_os (sound_world [half_known web])
                     (set_alerted scenario_monitor {[ conn_id web ]})))).
Proof.
  split; [vm_compute; reflexivity|].
  destruct (connection_without_local_address unconfigured_os
              (sound_world [half_known web])
              (set_alerted scenario_monitor {[ conn_id web ]})
              (half_known web) web [half_known web] eq_refl eq_refl eq_refl)
    as (_ & _ & H).
  apply H; [left|reflexivity|by intros p|simpl; set_solver].
Defined.

(** ** Ranges as blocks of addresses *)

Lemma land_netmask bits p a :
  (p ≤ bits)%N → (a < 2 ^ bits)%N →
  N.land a (ipaddress._ip_int_from_prefix bits p)
  = N.shiftl (N.shiftr a (bits - p)) (bits - p).
Proof.
  intros Hp Ha. unfold ipaddress._ip_int_from_prefix, ipaddress._ALL_ONES.
  replace (2 ^ bits - 1)%N with (N.ones bits)
    by (by rewrite N.ones_equiv, N.pred_sub).
  apply N.bits_inj. intros i.
  rewrite N.land_spec, N.lxor_spec, N.shiftr_spec'.
  destruct (N.lt_ge_cases i (bits - p)) as [Hlow|Hhigh].
  - rewrite (N.shiftl_spec_low _ _ _ Hlow).
    rewrite !N.ones_spec_low by lia. simpl. apply andb_false_r.
  - rewrite (N.shiftl_spec_high' _ _ _ Hhigh), N.shiftr_spec'.
    replace (i - (bits - p) + (bits - p))%N with i by lia.
    rewrite (N.ones_spec_high bits (i + p)) by lia.
    destruct (N.lt_ge_cases i bits) as [Hi|Hi].
    + rewrite N.ones_spec_low by lia. simpl. apply andb_true_r.
    + rewrite N.ones_spec_high by lia. simpl. rewrite andb_false_r.
      rewrite <- (N.mod_small a (2 ^ bits)) by lia.
      symmetry. by apply N.mod_pow2_bits_high.
Qed.

Lemma aligned_block n a k :
  N.shiftl (N.shiftr n k) k = n →
  N.shiftl (N.shiftr a k) k = n ↔ (n ≤ a < n + 2 ^ k)%N.
Proof.
  rewrite !N.shiftl_mul_pow2, !N.shiftr_div_pow2.
  assert (0 < 2 ^ k)%N as Hq by (apply N.neq_0_lt_0, N.pow_nonzero; lia).
  generalize dependent (2 ^ k)%N. intros q Hq Hn. split.
  - intros Ha. pose proof (N.div_mod a q ltac:(lia)) as Hdm.
    pose proof (N.mod_lt a q ltac:(lia)) as Hlt. clear Hn.
    generalize dependent (a / q)%N. generalize dependent (a mod q)%N.
    intros r Hr x Hx Ha. nia.
  - intros [Hlo Hhi].
    assert (a / q = n / q)%N as ->; [|done].
    symmetry. apply (N.div_unique a q (n / q) (a - n)); [|].
    + generalize dependent (n / q)%N. intros m Hm. lia.
    + generalize dependent (n / q)%N. intros m Hm. nia.
Qed.

Lemma parse_octet_bound s v : ipaddress.IPv4._parse_octet s = Ok v → (v ≤ 255)%N.
Proof.
  unfold ipaddress.IPv4._parse_octet.
  repeat (case_match; try discriminate). intros [= <-].
  by apply N.ltb_ge.
Qed.

Lemma from_octets_bound l : ∀ acc v,
  ipaddress.IPv4.from_octets acc l = Ok v → (v < (acc + 1) * 256 ^ N.of_nat (length l))%N.
Proof.
  induction l as [|o l IH]; intros acc v.
  - simpl. intros [= <-]. lia.
  - cbn [ipaddress.IPv4.from_octets].
    destruct (ipaddress.IPv4._parse_octet o) as [x|] eqn:Hx; [|discriminate].
    cbn [bind]. apply parse_octet_bound in Hx. intros Hv%IH.
    change (length (o :: l)) with (S (length l)).
    rewrite Nat2N.inj_succ, N.pow_succ_r'.
    generalize dependent (256 ^ N.of_nat (length l))%N. intros q Hv. nia.
Qed.

Lemma IPv4Address_bound s a : ipaddress.IPv4.IPv4Address s = Ok a → (a < 2 ^ 32)%N.
Proof.
  unfold ipaddress.IPv4.IPv4Address, ipaddress.IPv4._ip_int_from_string.
  repeat (case_match; try discriminate).
  destruct (ipaddress.IPv4.from_octets 0 _) as [v|] eqn:Hv; simpl; [|by case_match].
  intros [= <-]. apply from_octets_bound in Hv.
  match goal with H : negb (_ =? 4)%nat = false |- _ =>
    apply negb_false_iff, Nat.eqb_eq in H; rewrite H in Hv end.
  exact Hv.
Qed.

Lemma prefix_from_ip_int_bound bits v p :
  ipaddress._prefix_from_ip_int bits v = Ok p → (p ≤ bits)%N.
Proof.
  unfold ipaddress._prefix_from_ip_int. case_match; [discriminate|].
  intros [= <-]. lia.
Qed.

Lemma IPv4_make_netmask_bound arg p :
  ipaddress.IPv4._make_netmask arg = Ok p → (p ≤ 32)%N.
Proof.
  unfold ipaddress.IPv4._make_netmask. destruct arg as [s|]; [|by intros [= <-]].
  destruct (ipaddress._prefix_from_prefix_string _ s) as [q|e] eqn:Hq.
  - intros [= <-]. unfold ipaddress._prefix_from_prefix_string in Hq.
    repeat (case_match; try discriminate). injection Hq as <-.
    match goal with H : negb (_ <=? _)%N = false |- _ =>
      by apply negb_false_iff, N.leb_le in H end.
  - destruct e; try discriminate.
    unfold ipaddress.IPv4._prefix_from_ip_string.
    destruct (reraise _ _ _) as [v|]; simpl; [|discriminate].
    destruct (ipaddress._prefix_from_ip_int _ v) as [q|e'] eqn:Hv.
    + intros [= <-]. by apply prefix_from_ip_int_bound in Hv.
    + assert (is_ValueError e' = true) as -> by (by destruct e').
      destruct (ipaddress._prefix_from_ip_int _ (N.lxor v _)) as [q|e''] eqn:Hx;
        simpl; [|by destruct e''].
      intros [= <-]. by apply prefix_from_ip_int_bound in Hx.
Qed.

Lemma IPv4Network_wf s net :
  ipaddress.IPv4.IPv4Network s = Ok net →
  ∃ n p, net = IPv4Net n p ∧ (p ≤ 32)%N ∧ (n < 2 ^ 32)%N
         ∧ N.land n (ipaddress.netmask net) = n.
Proof.
  unfold ipaddress.IPv4.IPv4Network.
  destruct (ipaddress._split_addr_prefix s) as [[addr mask]|]; simpl; [|discriminate].
  destruct (ipaddress.IPv4.IPv4Address addr) as [n|] eqn:Hn; simpl; [|discriminate].
  destruct (ipaddress.IPv4._make_netmask mask) as [p|] eqn:Hp; simpl; [|discriminate].
  destruct (negb _) eqn:Hbits; [discriminate|]. intros [= <-].
  exists n, p. split_and!; [done|by eapply IPv4_make_netmask_bound
                            |by eapply IPv4Address_bound|].
  by apply negb_false_iff, N.eqb_eq in Hbits.
Qed.

Lemma IPv6Network_wf s net :
  ipaddress.IPv6.IPv6Network s = Ok net →
  ∃ n p scope, net = IPv6Net n p scope ∧ (p ≤ 128)%N
               ∧ N.land n (ipaddress.netmask net) = n.
Proof.
  unfold ipaddress.IPv6.IPv6Network.
  destruct (ipaddress._split_addr_prefix s) as [[addr mask]|]; simpl; [|discriminate].
  destruct (ipaddress.IPv6.IPv6Address addr) as [[n scope]|]; simpl; [|discriminate].
  destruct (ipaddress.IPv6._make_netmask mask) as [p|] eqn:Hp; simpl; [|discriminate].
  destruct (negb _) eqn:Hbits; [discriminate|]. intros [= <-].
  exists n, p, scope. split_and!; [done| |by apply negb_false_iff, N.eqb_eq in Hbits].
  unfold ipaddress.IPv6._make_netmask in Hp. destruct mask as [m|]; [|by injection Hp as <-].
  unfold ipaddress._prefix_from_prefix_string in Hp.
  repeat (case_match; try discriminate). injection Hp as <-.
  match goal with H : negb (_ <=? _)%N = false |- _ =>
    by apply negb_false_iff, N.leb_le in H end.
Qed.

Lemma ip_network_cases s net :
  ipaddress.ip_network s = Ok net →
  ipaddress.IPv4.IPv4Network s = Ok net ∨ ipaddress.IPv6.IPv6Network s = Ok net.
Proof.
  unfold ipaddress.ip_network, ipaddress.or_else.
  destruct (ipaddress.IPv4.IPv4Network s) as [n4|e4]; [by left|].
  destruct (is_Address_or_Netmask_error e4); [|discriminate].
  destruct (ipaddress.IPv6.IPv6Network s) as [n6|e6]; [by right|].
  by destruct (is_Address_or_Netmask_error e6).
Qed.

Lemma ip_network_proper s net : ipaddress.ip_network s = Ok net → proper_block net.
Proof.
  intros [H4|H6]%ip_network_cases.
  - by apply IPv4Network_wf in H4 as (n & p & -> & ? & ? & ?).
  - by apply IPv6Network_wf in H6 as (n & p & scope & -> & ? & ?).
Qed.

Lemma contains_IPv4_block n p a :
  proper_block (IPv4Net n p) → (a < 2 ^ 32)%N →
  ipaddress.contains (IPv4Net n p) (IPv4Addr a) = true ↔ (n ≤ a < n + 2 ^ (32 - p))%N.
Proof.
  intros (Hp & Hn & Haligned) Ha. unfold ipaddress.contains. rewrite N.eqb_eq.
  unfold ipaddress.netmask, ipaddress.IPv4._max_prefixlen in *.
  rewrite (land_netmask 32 p n Hp Hn) in Haligned.
  rewrite (land_netmask 32 p a Hp Ha). by apply aligned_block.
Qed.

Lemma ip_address_IPv4 s a :
  ipaddress.ip_address s = Ok (IPv4Addr a) → ipaddress.IPv4.IPv4Address s = Ok a.
Proof.
  unfold ipaddress.ip_address, ipaddress.or_else.
  destruct (ipaddress.IPv4.IPv4Address s) as [v|e]; simpl; [by intros [= <-]|].
  destruct (is_Address_or_Netmask_error e); [|discriminate].
  destruct (ipaddress.IPv6.IPv6Address s) as [[v sc]|e6]; simpl; [discriminate|].
  by destruct (is_Address_or_Netmask_error e6).
Qed.

Lemma parse_ranges_from_ip_network warn entries r :
  r ∈ fst (parse_ranges warn entries []) → ∃ s, ipaddress.ip_network s = Ok r.
Proof.
  rewrite parse_ranges_entries. simpl.
  intros (e & _ & He)%list_elem_of_omap. unfold entry_network in He.
  destruct (Str.truthy _); [|done].
  destruct (ipaddress.ip_network (Str.strip e)) as [net|] eqn:Hnet; [|done].
  injection He as <-. eauto.
Qed.

(** X19.  Every range of a started monitor, target or exclude, is a proper
    block: its prefix length is at most 32 (128 for IPv6), its network
    address has no host bit set, and it contains its own network address;
    no entry is read as a wider or a narrower range than it names. *)
Theorem configured_ranges_are_proper_blocks os out self r :
  __init__ os = (out, inl self) →
  r ∈ target_ranges self ++ exclude_ranges self →
  proper_block r ∧ ipaddress.contains r (network_address_of r) = true.
Proof.
  intros Hinit Hr.
  assert (∃ s, ipaddress.ip_network s = Ok r) as [s Hs].
  { unfold __init__ in Hinit.
    destruct (parse_ranges WarnInvalidRange _ []) as [targets out1] eqn:Ht.
    destruct targets as [|t targets]; [discriminate|].
    destruct (parse_ranges WarnInvalidExcludeRange _ []) as [excludes out2] eqn:He.
    injection Hinit as _ <-. cbn [target_ranges exclude_ranges] in Hr.
    apply elem_of_app in Hr as [Hr|Hr].
    - eapply (parse_ranges_from_ip_network WarnInvalidRange). by rewrite Ht.
    - eapply (parse_ranges_from_ip_network WarnInvalidExcludeRange). by rewrite He. }
  apply ip_network_proper in Hs. split; [done|].
  destruct r as [n p|n p scope]; simpl in *.
  - destruct Hs as (_ & _ & ->). apply N.eqb_refl.
  - destruct Hs as (_ & ->). apply N.eqb_refl.
Qed.

Lemma configured_ranges_are_proper_blocks_witness :
  proper_block (IPv4Net 2886729728 12)
  ∧ ipaddress.contains (IPv4Net 2886729728 12) (IPv4Addr 2886729728) = true.
Proof.
  apply (configured_ranges_are_proper_blocks unconfigured_os
           [WarnInvalidRange "10.10.0.0/8"]
           {| target_ranges := [IPv4Net 2886729728 12; IPv4Net 3232235520 16];
              exclude_ranges := [IPv4Net 3232235777 32];
              alerted_connections := ∅ |}).
  - vm_compute; reflexivity.
  - left.
Defined.

(** X20.  An IPv4 range [n/p] read by [ip_network] contains exactly the
    addresses from [n] to [n + 2^(32-p) - 1], whatever text they were read
    from. *)
Theorem ipv4_range_is_address_interval range_str ip_str n p a :
  ipaddress.ip_network range_str = Ok (IPv4Net n p) →
  ipaddress.ip_address ip_str = Ok (IPv4Addr a) →
  ipaddress.contains (IPv4Net n p) (IPv4Addr a) = true
  ↔ (n ≤ a < n + 2 ^ (32 - p))%N.
Proof.
  intros Hnet%ip_network_proper Ha%ip_address_IPv4%IPv4Address_bound.
  by apply contains_IPv4_block.
Qed.

Lemma ipv4_range_is_address_interval_witness :
  ipaddress.contains (IPv4Net 2886729728 12) (IPv4Addr 2887778303) = true
  ↔ (2886729728 ≤ 2887778303 < 2886729728 + 2 ^ (32 - 12))%N.
Proof.
  apply (ipv4_range_is_address_interval "172.16.0.0/12" "172.31.255.255");
    vm_compute; reflexivity.
Defined.

(** X21.  With [TARGET_IP_RANGES] unset, an IPv4 address is a target
    exactly when it lies in 172.16.0.0 - 172.31.255.255 or in
    192.168.0.0 - 192.168.255.255. *)
Theorem default_targets_are_two_blocks os out self ip_str a :
  environ os !! "TARGET_IP_RANGES" = None →
  __init__ os = (out, inl self) →
  ipaddress.ip_address ip_str = Ok (IPv4Addr a) →
  fst (is_target_ip self ip_str) = true
  ↔ (2886729728 ≤ a ≤ 2887778303)%N ∨ (3232235520 ≤ a ≤ 3232301055)%N.
Proof.
  intros Hunset Hinit Ha.
  assert (target_ranges self = [IPv4Net 2886729728 12; IPv4Net 3232235520 16]) as Ht.
  { assert (getenv os "TARGET_IP_RANGES" default_TARGET_IP_RANGES
            = default_TARGET_IP_RANGES) as Hg by (unfold getenv; by rewrite Hunset).
    unfold __init__ in Hinit. rewrite Hg in Hinit.
    assert (parse_ranges WarnInvalidRange (Str.split "," default_TARGET_IP_RANGES) []
            = ([IPv4Net 2886729728 12; IPv4Net 3232235520 16],
               [WarnInvalidRange "10.10.0.0/8"])) as Hparse
      by (vm_compute; reflexivity).
    rewrite Hparse in Hinit.
    destruct (parse_ranges WarnInvalidExcludeRange _ []) as [ex out2].
    by injection Hinit as _ <-. }
  unfold is_target_ip. rewrite Ha, Ht.
  apply ip_address_IPv4, IPv4Address_bound in Ha.
  rewrite first_match_true. split.
  - intros (r & Hr & Hc). apply elem_of_cons in Hr as [->|Hr].
    + apply contains_IPv4_block in Hc; [|by split_and!; vm_compute|done].
      change (2 ^ (32 - 12))%N with 1048576%N in Hc. lia.
    + apply list_elem_of_singleton in Hr as ->.
      apply contains_IPv4_block in Hc; [|by split_and!; vm_compute|done].
      change (2 ^ (32 - 16))%N with 65536%N in Hc. lia.
  - intros [H|H].
    + exists (IPv4Net 2886729728 12). split; [left|].
      apply contains_IPv4_block; [by split_and!; vm_compute|done|].
      change (2 ^ (32 - 12))%N with 1048576%N. lia.
    + exists (IPv4Net 3232235520 16). split; [right; left|].
      apply contains_IPv4_block; [by split_and!; vm_compute|done|].
      change (2 ^ (32 - 16))%N with 65536%N. lia.
Qed.

Lemma default_targets_are_two_blocks_witness :
  fst (is_target_ip
         {| target_ranges := [IPv4Net 2886729728 12; IPv4Net 3232235520 16];
            exclude_ranges := [IPv4Net 3232235777 32];
            alerted_connections := ∅ |} "10.0.0.1") = true
  ↔ (2886729728 ≤ 167772161 ≤ 2887778303)%N ∨ (3232235520 ≤ 167772161 ≤ 3232301055)%N.
Proof.
  apply (default_targets_are_two_blocks unconfigured_os
           [WarnInvalidRange "10.10.0.0/8"]); vm_compute; reflexivity.
Defined.

(** ** Addresses as the connection table writes them *)

Lemma octet_text x :
  (x ≤ 255)%N →
  ipaddress.IPv4._parse_octet (pretty x) = Ok x
  ∧ Str.contains "." (pretty x) = false
  ∧ Str.contains "/" (pretty x) = false.
Proof.
  intros Hx.
  assert (forallb (fun x =>
            match ipaddress.IPv4._parse_octet (pretty x) with
            | Ok y => (y =? x)%N
            | Raise _ => false
            end && negb (Str.contains "." (pretty x))
                && negb (Str.contains "/" (pretty x))) octets = true) as Hall
    by (vm_compute; reflexivity).
  rewrite forallb_forall in Hall. specialize (Hall x).
  assert (In x octets) as Hin.
  { unfold octets. rewrite <- (N2Nat.id x). apply in_map, in_seq. lia. }
  apply Hall in Hin. apply andb_prop in Hin as [[H1 H2]%andb_prop H3].
  destruct (ipaddress.IPv4._parse_octet (pretty x)) as [y|]; [|discriminate].
  apply N.eqb_eq in H1 as ->. by rewrite negb_true_iff in H2, H3.
Qed.

Lemma split_no_sep sep s : Str.contains sep s = false → Str.split sep s = [s].
Proof.
  induction s as [|c s IH]; simpl; [done|].
  destruct (Ascii.eqb c sep); [discriminate|]. by intros ->%IH.
Qed.

Lemma contains_app c s t :
  Str.contains c (s +:+ t) = Str.contains c s || Str.contains c t.
Proof.
  induction s as [|c0 s IH]; [done|].
  change (String c0 s +:+ t) with (String c0 (s +:+ t)). simpl.
  by destruct (Ascii.eqb c0 c).
Qed.

Lemma truthy_app_sep s c t : Str.truthy (s +:+ String c t) = true.
Proof. by destruct s. Qed.

(** X22.  The text [a.b.c.d] of an IPv4 address, each number at most 255
    and written in decimal without leading zeros, is read by [ip_address]
    as the IPv4 address of that value: such a remote address is never
    refused. *)
Theorem dotted_address_is_parsed a b c d :
  (a ≤ 255)%N → (b ≤ 255)%N → (c ≤ 255)%N → (d ≤ 255)%N →
  ipaddress.ip_address (dotted a b c d) = Ok (IPv4Addr (quad a b c d))
  ∧ (quad a b c d < 2 ^ 32)%N.
Proof.
  intros Ha Hb Hc Hd.
  destruct (octet_text a Ha) as (Hpa & Hda & Hsa).
  destruct (octet_text b Hb) as (Hpb & Hdb & Hsb).
  destruct (octet_text c Hc) as (Hpc & Hdc & Hsc).
  destruct (octet_text d Hd) as (Hpd & Hdd & Hsd).
  split; [|unfold quad; change (2 ^ 32)%N with 4294967296%N; lia].
  assert (ipaddress.IPv4.IPv4Address (dotted a b c d) = Ok (quad a b c d)) as H4.
  { unfold ipaddress.IPv4.IPv4Address, dotted.
    change (".":string) with (String "." EmptyString).
    assert (∀ s t, s +:+ String "." EmptyString +:+ t = s +:+ String "." t) as Hdot.
    { intros s t. induction s as [|c0 s IH]; [done|].
      change (String c0 s +:+ String "." EmptyString +:+ t)
        with (String c0 (s +:+ String "." EmptyString +:+ t)).
      by rewrite IH. }
    rewrite !Hdot.
    rewrite !contains_app. simpl. rewrite !contains_app. simpl.
    rewrite !contains_app. simpl. rewrite Hsa, Hsb, Hsc, Hsd. simpl.
    unfold ipaddress.IPv4._ip_int_from_string.
    rewrite truthy_app_sep. simpl.
    rewrite !split_app, !split_no_sep by done. simpl.
    rewrite Hpa. simpl. rewrite Hpb. simpl. rewrite Hpc. simpl. rewrite Hpd. simpl.
    f_equal. unfold quad. lia. }
  unfold ipaddress.ip_address. by rewrite H4.
Qed.

Lemma dotted_address_is_parsed_witness :
  dotted 172 16 254 1 = "172.16.254.1"
  ∧ ipaddress.ip_address (dotted 172 16 254 1) = Ok (IPv4Addr 2886794753).
Proof.
  split; [vm_compute; reflexivity|].
  destruct (dotted_address_is_parsed 172 16 254 1) as [H _]; try lia.
  exact H.
Defined.
